(** * Client-side session flow of the ATM kiosk (Eel front end)

    A shallow embedding of the four page scripts of the repository
    (the login page script [script.js], the OTP page script [otp.js], the
    main-menu script, the balance page script) and of the shared
    [global.js], together with the properties of the session state machine,
    of the OTP countdown and of the emergency lockdown.

    Conventions of the embedding.
    - A JavaScript string is the list of its UTF-16 code units, so that
      [length] is [String.prototype.length] and [trim] sees the same
      white space as the browser.
    - A JavaScript number that the scripts use as a counter is an integer
      of [Z]. The scripts compute in binary64: the integers up to 2^53 in
      magnitude are held, written and decremented exactly there, and only
      on them are [show_int], [parseInt] and the decrement of [Otp.tick]
      the browser's. The statements about the value or the text of a
      number bound it by 2^53.
    - The browser state a script can read or write is a [world]: the
      elements of the document by id, the session storage, the pending
      timeouts, the functions exposed to the backend, the registered
      [DOMContentLoaded] listeners, the top-level variables of the page's
      own script, and the trace of the effects caused so far, oldest first.
    - A script function is a computation of the monad [eff], which threads
      the world and may throw; an uncaught exception ends the running
      handler and keeps the effects it had already caused.
    - The decorative bubble animation ([spawnBubble] and its interval) has
      no effect on any of the modelled state and is left out. *)

From Stdlib Require Import ZArith NArith QArith Qabs Qround String Ascii List Lia Lqa.
From stdpp Require Import base option list numbers gmap strings.

Local Open Scope Z_scope.

(** ** JavaScript strings *)

Abbreviation jsstring := (list N).

Definition js (s : string) : jsstring :=
  (λ a, N_of_ascii a) <$> list_ascii_of_string s.

(** [WhiteSpace] and [LineTerminator] code points of ECMAScript, the set
    removed by [trim] and skipped by [parseInt]. *)
Definition is_white_space (c : N) : bool :=
  ((c =? 9) || (c =? 10) || (c =? 11) || (c =? 12) || (c =? 13) || (c =? 32)
   || (c =? 160) || (c =? 0x1680) || ((0x2000 <=? c) && (c <=? 0x200A))
   || (c =? 0x2028) || (c =? 0x2029) || (c =? 0x202F) || (c =? 0x205F)
   || (c =? 0x3000) || (c =? 0xFEFF))%N.

Fixpoint trimStart (s : jsstring) : jsstring :=
  match s with
  | c :: s' => if is_white_space c then trimStart s' else s
  | [] => []
  end.

Definition trimEnd (s : jsstring) : jsstring := rev (trimStart (rev s)).

(** [s.trim()] *)
Definition trim (s : jsstring) : jsstring := trimEnd (trimStart s).

(** [s.toLowerCase()]: the letters A to Z are mapped to a to z. Code units
    outside that range are kept: the Unicode mappings of the other letters
    are not modelled. No character outside A to Z lower-cases to an ASCII
    letter other than k and i, so a comparison of the result with a word
    made of other ASCII letters is not affected. *)
Definition lower_unit (c : N) : N :=
  if ((65 <=? c) && (c <=? 90))%N then (c + 32)%N else c.

Definition toLowerCase (s : jsstring) : jsstring := lower_unit <$> s.

(** [a || b] on a string that may be [null]: [null] and the empty string are
    falsy. *)
Definition or_string (a : option jsstring) (b : jsstring) : jsstring :=
  match a with
  | Some (c :: s) => c :: s
  | _ => b
  end.

(** A string or [null] inside a template literal. *)
Definition show_string (a : option jsstring) : jsstring :=
  match a with
  | Some s => s
  | None => js "null"
  end.

(** Decimal digits of a natural number, most significant first. *)
Fixpoint digits_go (fuel : nat) (n : N) (acc : jsstring) : jsstring :=
  match fuel with
  | O => acc
  | S fuel' =>
      let acc' := (48 + n mod 10)%N :: acc in
      if (n / 10 =? 0)%N then acc' else digits_go fuel' (n / 10)%N acc'
  end.

Definition digits (n : N) : jsstring :=
  digits_go (S (N.to_nat (N.log2 n))) n [].

(** An integer inside a template literal ([Number::toString], radix 10),
    for the integers up to 2^53 in magnitude, which binary64 holds exactly
    and writes with all their digits. Beyond, the browser rounds the
    number, writes at most 17 significant digits and, from 10^21 on, an
    exponent; that is not modelled. *)
Definition show_int (z : Z) : jsstring :=
  if z <? 0 then 45%N :: digits (Z.to_N (- z)) else digits (Z.to_N z).

(** ** parseInt *)

Definition digit_value (radix : N) (c : N) : option N :=
  let v :=
    if ((48 <=? c) && (c <=? 57))%N then Some (c - 48)%N
    else if ((97 <=? c) && (c <=? 122))%N then Some (c - 87)%N
    else if ((65 <=? c) && (c <=? 90))%N then Some (c - 55)%N
    else None in
  match v with
  | Some d => if (d <? radix)%N then Some d else None
  | None => None
  end.

(** The value of the longest prefix of radix-[radix] digits, [None] when
    that prefix is empty. *)
Fixpoint parse_digits (radix : N) (acc : option N) (s : jsstring) : option N :=
  match s with
  | c :: s' =>
      match digit_value radix c with
      | Some d => parse_digits radix (Some (default 0%N acc * radix + d)%N) s'
      | None => acc
      end
  | [] => acc
  end.

(** The sign in front of the digits, and the rest. *)
Definition split_sign (s : jsstring) : Z * jsstring :=
  match s with
  | c :: s' =>
      if (c =? 45)%N then (-1, s')
      else if (c =? 43)%N then (1, s')
      else (1, s)
  | [] => (1, [])
  end.

(** Without a radix argument the digits are decimal, unless they start
    with 0x or 0X. *)
Definition split_radix (s : jsstring) : N * jsstring :=
  match s with
  | c0 :: c1 :: s' =>
      if ((c0 =? 48) && ((c1 =? 120) || (c1 =? 88)))%N then (16%N, s')
      else (10%N, s)
  | _ => (10%N, s)
  end.

(** [parseInt(x)] without a radix; [None] is [NaN]. The argument is first
    converted to a string, so [null] is read as the word "null". The
    result is the integer the digits denote, which is the browser's number
    up to 2^53 in magnitude; beyond, the browser rounds it to binary64. *)
Definition parseInt (x : option jsstring) : option Z :=
  let '(sign, s) := split_sign (trimStart (show_string x)) in
  let '(radix, s) := split_radix s in
  match parse_digits radix None s with
  | Some n => Some (sign * Z.of_N n)
  | None => None
  end.

(** ** URL search parameters *)

(** The query of the page's URL, already split and decoded;
    [searchParams.get] returns the first value of a name, or [null]. *)
Abbreviation query := (list (jsstring * jsstring)).

Fixpoint searchParams_get (q : query) (name : jsstring) : option jsstring :=
  match q with
  | (k, v) :: q' => if decide (k = name) then Some v else searchParams_get q' name
  | [] => None
  end.

(** ** The browser state seen by a script *)

(** Values passed over the Eel bridge. *)
Inductive jsval :=
  | VUndefined
  | VNull
  | VStr (s : jsstring)
  | VNum (z : Z)
  | VBool (b : bool).

(** A value inside a template literal. *)
Definition show_val (v : jsval) : jsstring :=
  match v with
  | VUndefined => js "undefined"
  | VNull => js "null"
  | VStr s => s
  | VNum z => show_int z
  | VBool true => js "true"
  | VBool false => js "false"
  end.

Definition val_of_string (a : option jsstring) : jsval :=
  match a with
  | Some s => VStr s
  | None => VNull
  end.

(** The [i]-th argument of a call; a missing argument is [undefined]. *)
Definition arg (i : nat) (args : list jsval) : jsval := default VUndefined (args !! i).

(** The properties of a document element that the scripts touch. *)
Record element := Element {
    el_value : jsstring;      (* [.value] of an input *)
    el_innerText : jsstring;  (* [.innerText] *)
    el_innerHTML : jsstring;  (* [.innerHTML] *)
    el_display : jsstring     (* [.style.display] *)
  }.

Definition blank : element := Element [] [] [] [].

(** A page loads at most two scripts: the shared [global.js] and the
    script of the page itself. Both declare a function
    [trigger_emergency_mode]; a function is identified by its script and
    its name. *)
Inductive script :=
  | GlobalJs
  | PageJs.

#[export] Instance script_eq_dec : EqDecision script.
Proof. solve_decision. Defined.

(** Observable effects. [DrawArc p] is the arc stroked by [draw]: it
    starts at the top of the circle and sweeps [p] full turns, that is the
    angle [p * 2 * Math.PI]. *)
Inductive effect :=
  | ConsoleWarn (msg : jsstring)
  | ConsoleLog (msg : jsstring)
  | SetInnerText (id : string) (text : jsstring)
  | SetInnerHTML (id : string) (html : jsstring)
  | SetDisplay (id : string) (v : jsstring)
  | StorageSet (key : string) (v : jsstring)
  | StorageRemove (key : string)
  | Navigate (url : jsstring)
  | EelCall (fn : string) (args : list jsval)
  | DrawArc (p : Q)
  | SetTimeout (callback : string) (ms : Z)
  | Uncaught.

(** [G] is the type of the top-level variables of the page's own script.
    [sessionStorage] is the one part of the state that the next page of the
    same browsing session inherits. [exposed] is Eel's table of functions
    callable from the backend: the name and the script whose function of
    that name was registered last. *)
Record world (G : Type) := World {
    document : gmap string element;
    sessionStorage : gmap string jsstring;
    timeouts : list (string * list jsval);
    exposed : gmap string script;
    listeners : list script;
    trace : list effect;
    globals : G
  }.
Arguments World {G}.
Arguments document {G}.
Arguments sessionStorage {G}.
Arguments timeouts {G}.
Arguments exposed {G}.
Arguments listeners {G}.
Arguments trace {G}.
Arguments globals {G}.

Inductive outcome (A : Type) :=
  | Return (a : A)
  | Throw.
Arguments Return {A}.
Arguments Throw {A}.

Definition eff (G A : Type) : Type := world G → outcome A * world G.

#[export] Instance eff_ret {G} : MRet (eff G) := λ A a w, (Return a, w).
#[export] Instance eff_bind {G} : MBind (eff G) := λ A B f c w,
  match c w with
  | (Return a, w') => f a w'
  | (Throw, w') => (Throw, w')
  end.

Section Primitives.
Context {G : Type}.

Definition throw {A} : eff G A := λ w, (Throw, w).

Definition emit (e : effect) : eff G unit := λ w,
  (Return (), World (document w) (sessionStorage w) (timeouts w) (exposed w)
                    (listeners w) (trace w ++ [e]) (globals w)).

Definition set_document (d : gmap string element) : eff G unit := λ w,
  (Return (), World d (sessionStorage w) (timeouts w) (exposed w)
                    (listeners w) (trace w) (globals w)).

Definition set_storage (s : gmap string jsstring) : eff G unit := λ w,
  (Return (), World (document w) s (timeouts w) (exposed w)
                    (listeners w) (trace w) (globals w)).

Definition set_timeouts (t : list (string * list jsval)) : eff G unit := λ w,
  (Return (), World (document w) (sessionStorage w) t (exposed w)
                    (listeners w) (trace w) (globals w)).

Definition get_globals : eff G G := λ w, (Return (globals w), w).

Definition set_globals (g : G) : eff G unit := λ w,
  (Return (), World (document w) (sessionStorage w) (timeouts w) (exposed w)
                    (listeners w) (trace w) g).

(** [eel.expose(f)] inside script [s], for the function [f] named [name]:
    a later registration under the same name replaces the earlier one. *)
Definition eel_expose (s : script) (name : string) : eff G unit := λ w,
  (Return (), World (document w) (sessionStorage w) (timeouts w)
                    (<[name := s]> (exposed w)) (listeners w) (trace w) (globals w)).

(** [window.addEventListener("DOMContentLoaded", f)] inside script [s]. *)
Definition addEventListener_DOMContentLoaded (s : script) : eff G unit := λ w,
  (Return (), World (document w) (sessionStorage w) (timeouts w) (exposed w)
                    (listeners w ++ [s]) (trace w) (globals w)).

(** [document.getElementById(id)]: the element, named by its id, or
    [null]. *)
Definition getElementById (id : string) : eff G (option string) := λ w,
  (Return (match document w !! id with Some _ => Some id | None => None end), w).

(** Reading a property of [null] throws a [TypeError]. *)
Definition get_prop {A} (f : element → A) (h : option string) : eff G A := λ w,
  match h with
  | Some id =>
      match document w !! id with
      | Some e => (Return (f e), w)
      | None => (Throw, w)
      end
  | None => (Throw, w)
  end.

(** Writing a property of [null] throws as well. *)
Definition set_prop (f : element → element) (log : string → effect)
    (h : option string) : eff G unit :=
  match h with
  | Some id =>
      d ← (λ w, (Return (document w), w));
      set_document (alter f id d);; emit (log id)
  | None => throw
  end.

Definition get_value := get_prop el_value.

(** The markup last assigned. The browser returns the serialisation of
    the elements parsed from it; for the markup the scripts assign this is
    the same text as long as the text they interpolate has no character
    of markup ([&], [<], [>]) and none that the serialiser escapes. *)
Definition get_innerHTML := get_prop el_innerHTML.

Definition set_innerText (h : option string) (t : jsstring) : eff G unit :=
  set_prop (λ e, Element (el_value e) t (el_innerHTML e) (el_display e))
           (λ id, SetInnerText id t) h.

Definition set_innerHTML (h : option string) (t : jsstring) : eff G unit :=
  set_prop (λ e, Element (el_value e) (el_innerText e) t (el_display e))
           (λ id, SetInnerHTML id t) h.

Definition set_display (h : option string) (v : jsstring) : eff G unit :=
  set_prop (λ e, Element (el_value e) (el_innerText e) (el_innerHTML e) v)
           (λ id, SetDisplay id v) h.

Definition sessionStorage_getItem (k : string) : eff G (option jsstring) := λ w,
  (Return (sessionStorage w !! k), w).

Definition sessionStorage_setItem (k : string) (v : jsstring) : eff G unit :=
  s ← (λ w, (Return (sessionStorage w), w));
  set_storage (<[k := v]> s);; emit (StorageSet k v).

Definition sessionStorage_removeItem (k : string) : eff G unit :=
  s ← (λ w, (Return (sessionStorage w), w));
  set_storage (delete k s);; emit (StorageRemove k).

(** [window.location.replace(url)] and [window.location.href = url]: the
    navigation is requested, the running function goes on. *)
Definition navigate (url : jsstring) : eff G unit := emit (Navigate url).

(** [eel.fn(args)()] *)
Definition eel_call (fn : string) (args : list jsval) : eff G unit :=
  emit (EelCall fn args).

(** [setTimeout(callback, ms)]; [captured] are the values of the
    enclosing call that the callback refers to. *)
Definition setTimeout (callback : string) (captured : list jsval) (ms : Z)
    : eff G unit :=
  t ← (λ w, (Return (timeouts w), w));
  set_timeouts (t ++ [(callback, captured)]);; emit (SetTimeout callback ms).

(** Running a script or a handler to its end; an exception that nothing
    catches is reported and the effects caused so far stay. *)
Definition run (c : eff G unit) (w : world G) : world G :=
  match c w with
  | (Return _, w') => w'
  | (Throw, w') => (emit Uncaught w').2
  end.

(** The user types [v] into the input [id]. *)
Definition type_into (id : string) (v : jsstring) (w : world G) : world G :=
  World (alter (λ e, Element v (el_innerText e) (el_innerHTML e) (el_display e))
               id (document w))
        (sessionStorage w) (timeouts w) (exposed w) (listeners w) (trace w)
        (globals w).
End Primitives.

(** The part of a trace added by a step from [w] to [w']. *)
Definition added {G} (w w' : world G) : list effect :=
  drop (length (trace w)) (trace w').

Definition is_call (e : effect) : bool :=
  match e with EelCall _ _ => true | _ => false end.
Definition is_navigation (e : effect) : bool :=
  match e with Navigate _ => true | _ => false end.
(** The Eel calls and the navigations of a trace. *)
Definition calls (t : list effect) : list effect := List.filter is_call t.
Definition navigations (t : list effect) : list effect := List.filter is_navigation t.

(** ** Pages

    The HTML files are not part of the sources. What a page contributes is
    the top-level code of its own script, the functions that script exposes
    to the backend and the callbacks it passes to [setTimeout]. *)
Record page (G : Type) := Page {
    page_toplevel : eff G unit;
    page_function : string → list jsval → eff G unit;
    page_callback : string → list jsval → eff G unit
  }.
Arguments Page {G}.
Arguments page_toplevel {G}.
Arguments page_function {G}.
Arguments page_callback {G}.

(** ** global.js *)

Module Global.
Section Global.
Context {G : Type}.

Definition trigger_emergency_mode : eff G unit :=
  emit (ConsoleWarn ([0x26A0; 0xFE0F]%N ++ js "  EMERGENCY MODE TRIGGERED "
                     ++ [0x26A0; 0xFE0F]%N));;
  sessionStorage_setItem "lockdown" (js "true");;
  lock ← getElementById "lockscreen";
  match lock with
  | Some _ => set_display lock (js "flex")
  | None => navigate (js "lock.html")
  end.

(** The listener registered for [DOMContentLoaded]. *)
Definition on_DOMContentLoaded : eff G unit :=
  v ← sessionStorage_getItem "lockdown";
  if decide (v = Some (js "true")) then
    lock ← getElementById "lockscreen";
    match lock with
    | Some _ => set_display lock (js "flex")
    | None => mret ()
    end
  else mret ().

Definition clearLock : eff G unit :=
  sessionStorage_removeItem "lockdown";;
  lock ← getElementById "lockscreen";
  match lock with
  | Some _ => set_display lock (js "none")
  | None => mret ()
  end;;
  emit (ConsoleLog (js "Lockdown cleared (manual reset).")).

(** The top-level statements of the file. *)
Definition toplevel : eff G unit :=
  eel_expose GlobalJs "trigger_emergency_mode";;
  addEventListener_DOMContentLoaded GlobalJs.

(** Its functions that the backend can call, by name. *)
Definition function (name : string) (args : list jsval) : eff G unit :=
  if decide (name = "trigger_emergency_mode") then trigger_emergency_mode
  else mret ().
End Global.
End Global.

(** The handler of the same name that each page script declares and exposes
    for itself; the login, OTP, main-menu and balance scripts carry the same
    text. *)
Definition page_trigger_emergency_mode {G} : eff G unit :=
  lock ← getElementById "lockscreen";
  match lock with
  | Some _ => set_display lock (js "flex")
  | None => mret ()
  end.

(** ** script.js, the script of the login page *)

Definition warning_sign : jsstring := [0x26A0; 0xFE0F]%N.
Definition alarm_clock : jsstring := [0x23F0]%N.

(** A value assigned to [innerText]: [null] gives the empty text. *)
Definition text_of_val (v : jsval) : jsstring :=
  match v with
  | VNull => []
  | _ => show_val v
  end.

Module Login.
Section Login.
Context {G : Type}.

Definition login : eff G unit :=
  eu ← getElementById "user";
  uv ← get_value eu;
  let user := trim uv in
  ep ← getElementById "pass";
  pv ← get_value ep;
  let pass := trim pv in
  if bool_decide (user = []) || bool_decide (pass = []) then
    st ← getElementById "status";
    set_innerText st (warning_sign ++ js " Enter username & password")
  else
    st ← getElementById "status";
    set_innerText st (js "Authenticating...");;
    eel_call "login" [VStr user; VStr pass].

Definition show_status (msg : jsval) : eff G unit :=
  st ← getElementById "status";
  set_innerText st (text_of_val msg).

Definition redirect_otp (username status timer : jsval) : eff G unit :=
  navigate (js "otp.html?user=" ++ show_val username ++ js "&status="
            ++ show_val status ++ js "&t=" ++ show_val timer).

Definition toplevel : eff G unit :=
  eel_expose PageJs "show_status";;
  eel_expose PageJs "redirect_otp";;
  eel_expose PageJs "trigger_emergency_mode".

Definition function (name : string) (args : list jsval) : eff G unit :=
  if decide (name = "show_status") then show_status (arg 0 args)
  else if decide (name = "redirect_otp") then
    redirect_otp (arg 0 args) (arg 1 args) (arg 2 args)
  else if decide (name = "trigger_emergency_mode") then page_trigger_emergency_mode
  else mret ().

Definition the_page : page G := Page toplevel function (λ _ _, mret ()).
End Login.
End Login.

(** ** otp.js, the script of the OTP page *)

(** [a || b] on numbers: [NaN] and zero are falsy. *)
Definition or_num (a : option Z) (b : Z) : Z :=
  match a with
  | Some z => if z =? 0 then b else z
  | None => b
  end.

Module Otp.
(** The top-level variables of the script. *)
Record vars := Vars {
  username : option jsstring;
  status : jsstring;
  timeLeft : Z
}.

(** Lines 1 to 4, from the query of the page's URL. *)
Definition init_vars (q : query) : vars :=
  Vars (searchParams_get q (js "user"))
       (or_string (searchParams_get q (js "status")) (js "customer"))
       (or_num (parseInt (searchParams_get q (js "t"))) 60).

(** The swept fraction [p] is held here as the exact quotient; the
    script computes it in binary64, rounded to the nearest number. *)
Definition draw : eff vars unit :=
  g ← get_globals;
  let p := (inject_Z (timeLeft g) / 60)%Q in
  emit (DrawArc p).

(** [timeLeft--] is exact for a counter up to 2^53. *)
Definition tick : eff vars unit :=
  draw;;
  g ← get_globals;
  c ← getElementById "countdown";
  set_innerText c (show_int (timeLeft g) ++ js "s remaining");;
  if timeLeft g <=? 0 then
    st ← getElementById "status";
    set_innerText st (alarm_clock ++ js " OTP expired")
  else
    set_globals (Vars (username g) (status g) (timeLeft g - 1));;
    setTimeout "tick" [] 1000.

Definition submitOtp : eff vars unit :=
  eo ← getElementById "otp";
  v ← get_value eo;
  let val := trim v in
  if bool_decide (val = []) || negb (length val =? 6)%nat then
    st ← getElementById "status";
    set_innerText st (warning_sign ++ js " Enter 6 digits")
  else
    st ← getElementById "status";
    set_innerText st (js "Verifying...");;
    g ← get_globals;
    eel_call "verify_otp" [val_of_string (username g); VStr val].

Definition otp_failed (msg : jsval) : eff vars unit :=
  st ← getElementById "status";
  set_innerText st (text_of_val msg).

Definition redirect_main (username status : jsval) : eff vars unit :=
  navigate (js "mainmenu.html?user=" ++ show_val username ++ js "&status="
            ++ show_val status).

(** The top-level statements after the variables: the canvas and its
    context (a missing canvas throws), the first [tick()], the exposed
    functions. *)
Definition toplevel : eff vars unit :=
  canvas ← getElementById "circle";
  match canvas with
  | Some _ => mret ()
  | None => throw
  end;;
  tick;;
  eel_expose PageJs "otp_failed";;
  eel_expose PageJs "redirect_main";;
  eel_expose PageJs "trigger_emergency_mode".

Definition function (name : string) (args : list jsval) : eff vars unit :=
  if decide (name = "otp_failed") then otp_failed (arg 0 args)
  else if decide (name = "redirect_main") then redirect_main (arg 0 args) (arg 1 args)
  else if decide (name = "trigger_emergency_mode") then page_trigger_emergency_mode
  else mret ().

Definition callback (name : string) (captured : list jsval) : eff vars unit :=
  if decide (name = "tick") then tick else mret ().

Definition the_page : page vars := Page toplevel function callback.
End Otp.

(** ** The script of the main-menu page *)

Definition dq : jsstring := [34%N].

Module MainMenu.
Record vars := Vars {
  user : option jsstring;
  status : jsstring
}.

Definition init_vars (q : query) : vars :=
  Vars (searchParams_get q (js "user"))
       (toLowerCase (or_string (searchParams_get q (js "status")) (js "customer"))).

(** A button of the menu: its click handler, if it has one, and its
    label. *)
Definition button (b : option string * string) : jsstring :=
  js "<button"
  ++ match b.1 with
     | Some h => js " onclick=" ++ dq ++ js h ++ dq
     | None => []
     end
  ++ js ">" ++ js b.2 ++ js "</button>".

(** Each button of the two template literals is on a line of its own,
    indented by four spaces. *)
Definition buttons_html (l : list (option string * string)) : jsstring :=
  concat ((λ b, 10%N :: js "    " ++ button b) <$> l).

Definition staff_buttons : list (option string * string) :=
  [ (Some "eel.toggle_maintenance(true)()", "Enable Maintenance");
    (Some "eel.toggle_maintenance(false)()", "Disable Maintenance");
    (Some "logout()", "Logout") ].

Definition customer_buttons : list (option string * string) :=
  [ (Some "checkBalance()", "Check Balance");
    (None, "Withdraw");
    (None, "Deposit");
    (Some "logout()", "Logout") ].

Definition subtitle (status : jsstring) : jsstring :=
  if decide (status = js "staff") then js "Staff Access Panel"
  else js "Customer Access Panel".

Definition header (g : vars) : jsstring :=
  js "<h1 style=" ++ dq ++ js "color:#e7fdfd;" ++ dq ++ js ">Welcome, "
  ++ show_string (user g) ++ js "</h1>" ++ [10%N]
  ++ js "<p class=" ++ dq ++ js "subtitle" ++ dq ++ js ">"
  ++ subtitle (status g) ++ js "</p>".

Definition logout : eff vars unit := navigate (js "index.html").

(** [checkBalance] up to its [await]: the request. *)
Definition checkBalance : eff vars unit :=
  g ← get_globals;
  eel_call "get_balance" [val_of_string (user g)].

(** [checkBalance] after its [await], once the backend has answered
    [bal]. *)
Definition checkBalance_resumed (bal : jsval) : eff vars unit :=
  g ← get_globals;
  navigate (js "balance.html?user=" ++ show_string (user g) ++ js "&status="
            ++ status g ++ js "&bal=" ++ show_val bal).

Definition show_balance (user amount : jsval) : eff vars unit :=
  navigate (js "balance.html?user=" ++ show_val user ++ js "&status=customer");;
  setTimeout "show_balance.timeout" [amount] 300.

Definition show_balance_timeout (amount : jsval) : eff vars unit :=
  el ← getElementById "balance-amount";
  set_innerText el (js "RM " ++ show_val amount).

Definition toplevel : eff vars unit :=
  g ← get_globals;
  menu ← getElementById "menu";
  set_innerHTML menu (header g);;
  (if decide (status g = js "staff") then
     h ← get_innerHTML menu;
     set_innerHTML menu (h ++ buttons_html staff_buttons)
   else
     h ← get_innerHTML menu;
     set_innerHTML menu (h ++ buttons_html customer_buttons));;
  eel_expose PageJs "show_balance";;
  eel_expose PageJs "trigger_emergency_mode".

Definition function (name : string) (args : list jsval) : eff vars unit :=
  if decide (name = "show_balance") then show_balance (arg 0 args) (arg 1 args)
  else if decide (name = "trigger_emergency_mode") then page_trigger_emergency_mode
  else mret ().

Definition callback (name : string) (captured : list jsval) : eff vars unit :=
  if decide (name = "show_balance.timeout") then show_balance_timeout (arg 0 captured)
  else mret ().

Definition the_page : page vars := Page toplevel function callback.
End MainMenu.

(** ** The script of the balance page *)

(** A number as [parseFloat] returns it: not a number, an infinity, or a
    finite binary64 value, held as the rational it denotes. *)
Inductive jsnum :=
| NaN
| Infinity (negative : bool)
| Finite (x : Q).

Module Balance.
Record vars := Vars {
  username : option jsstring;
  status : option jsstring;
  bal : option jsstring
}.

Definition init_vars (q : query) : vars :=
  Vars (searchParams_get q (js "user")) (searchParams_get q (js "status"))
       (searchParams_get q (js "bal")).

(** [n] padded with zeros on the left to at least [k] digits. *)
Definition pad_digits (k : nat) (n : N) : jsstring :=
  let m := digits n in
  replicate (k - length m) 48%N ++ m.

Section Builtins.
(** Two built-ins are taken as given: [parseFloat] (the decimal
    literal at the start of a string, rounded to binary64) and
    [Number::toString] on the magnitudes from 10^21 on, where
    [toFixed] falls back to it. *)
Variable parseFloat : option jsstring → jsnum.
Variable number_toString : Q → jsstring.

(** [x.toFixed(f)], after Number.prototype.toFixed: the integer [n]
    nearest to [x * 10^f], the larger one on a tie, written with [f]
    digits after the point. *)
Definition toFixed (f : nat) (x : jsnum) : jsstring :=
  match x with
  | NaN => js "NaN"
  | Infinity false => js "Infinity"
  | Infinity true => js "-Infinity"
  | Finite x =>
      let s := if Qlt_le_dec x 0 then [45%N] else [] in
      let a := Qabs x in
      if Qlt_le_dec a (inject_Z (10 ^ 21)) then
        let n := Z.to_N (Qfloor (a * inject_Z (10 ^ Z.of_nat f) + (1 # 2))) in
        let m := pad_digits (f + 1) n in
        if decide (f = 0%nat) then s ++ m
        else s ++ take (length m - f) m ++ js "." ++ drop (length m - f) m
      else s ++ number_toString a
  end.

Definition balance_text (bal : option jsstring) : jsstring :=
  if decide (bal = Some (js "Error")) then js "Error retrieving balance"
  else js "RM " ++ toFixed 2 (parseFloat bal).

Definition toplevel : eff vars unit :=
  g ← get_globals;
  el ← getElementById "balance-amount";
  set_innerText el (balance_text (bal g));;
  eel_expose PageJs "trigger_emergency_mode".

Definition goBack : eff vars unit :=
  g ← get_globals;
  navigate (js "mainmenu.html?user=" ++ show_string (username g)
            ++ js "&status=" ++ show_string (status g)).

Definition function (name : string) (args : list jsval) : eff vars unit :=
  if decide (name = "trigger_emergency_mode") then page_trigger_emergency_mode
  else mret ().

Definition the_page : page vars := Page toplevel function (λ _ _, mret ()).
End Builtins.
End Balance.

(** ** Loading a page, and the events that follow *)

Section Events.
Context {G : Type} (pg : page G).

Definition toplevel_of (s : script) : eff G unit :=
  match s with
  | GlobalJs => Global.toplevel
  | PageJs => page_toplevel pg
  end.

Definition function_of (s : script) : string → list jsval → eff G unit :=
  match s with
  | GlobalJs => Global.function
  | PageJs => page_function pg
  end.

(** Only [global.js] registers a listener. *)
Definition listener_of (s : script) : eff G unit :=
  match s with
  | GlobalJs => Global.on_DOMContentLoaded
  | PageJs => mret ()
  end.

(** The scripts of the page run in document order. *)
Definition run_scripts (order : list script) (w : world G) : world G :=
  foldl (λ w s, run (toplevel_of s) w) w order.

(** [DOMContentLoaded] is dispatched once the document is parsed, hence
    after the scripts have run; the listeners run in registration order. *)
Definition dispatch_DOMContentLoaded (w : world G) : world G :=
  foldl (λ w s, run (listener_of s) w) w (listeners w).

(** Loading a page made of the scripts [order], in a session whose
    storage is [store], with the document [doc] and the script variables
    [g] read from the URL. *)
Definition load (order : list script) (doc : gmap string element)
    (store : gmap string jsstring) (g : G) : world G :=
  dispatch_DOMContentLoaded (run_scripts order (World doc store [] ∅ [] [] g)).

(** The backend calls the exposed function [name]. *)
Definition push (name : string) (args : list jsval) (w : world G) : world G :=
  match exposed w !! name with
  | Some s => run (function_of s name args) w
  | None => w
  end.

(** The oldest pending timeout fires. *)
Definition fire_timeout (w : world G) : world G :=
  match timeouts w with
  | (cb, captured) :: rest => run (set_timeouts rest;; page_callback pg cb captured) w
  | [] => w
  end.
End Events.

(** ** Vocabulary of the statements *)

Definition expired_text : jsstring := alarm_clock ++ js " OTP expired".

Definition countdown_text (n : Z) : jsstring := show_int n ++ js "s remaining".

(** What a tick adds to the trace while time is left, and at the last
    second. *)
Definition running_tick (n : Z) : list effect :=
  [DrawArc (inject_Z n / 60); SetInnerText "countdown" (countdown_text n);
   SetTimeout "tick" 1000].

Definition last_tick (n : Z) : list effect :=
  [DrawArc (inject_Z n / 60); SetInnerText "countdown" (countdown_text n);
   SetInnerText "status" expired_text].

(** The ticks of the [k] seconds from [n] downwards. *)
Fixpoint ticks_from (n : Z) (k : nat) : list effect :=
  match k with
  | O => []
  | S k' => ticks_from n k' ++ running_tick (n - Z.of_nat k')
  end.

Definition is_expiry (e : effect) : bool :=
  match e with
  | SetInnerText id t => String.eqb id "status" && bool_decide (t = expired_text)
  | _ => false
  end.

(** The page shows "expired". *)
Definition shows_expired (w : world Otp.vars) : Prop :=
  el_innerText <$> document w !! "status" = Some expired_text.

Definition fire := fire_timeout Otp.the_page.

(** What can happen on the OTP page once it is loaded: the pending
    timeout fires, the user types a code and submits it, the backend calls
    an exposed function. *)
Inductive otp_event :=
  | TimerFires
  | CodeSubmitted (typed : jsstring)
  | Pushed (name : string) (args : list jsval).

Definition otp_step (ev : otp_event) (w : world Otp.vars) : world Otp.vars :=
  match ev with
  | TimerFires => fire w
  | CodeSubmitted typed => run Otp.submitOtp (type_into "otp" typed w)
  | Pushed name args => push Otp.the_page name args w
  end.

Definition otp_run (evs : list otp_event) (w : world Otp.vars) : world Otp.vars :=
  foldl (λ w ev, otp_step ev w) w evs.

(** The effects of the timer's own ticks along a run, in order. *)
Fixpoint timer_effects (evs : list otp_event) (w : world Otp.vars) : list effect :=
  match evs with
  | [] => []
  | ev :: evs' =>
      match ev with
      | TimerFires => added w (fire w)
      | _ => []
      end ++ timer_effects evs' (otp_step ev w)
  end.

Definition is_fire (ev : otp_event) : bool :=
  match ev with TimerFires => true | _ => false end.

(** The success push is the call of [redirect_main]. *)
Definition is_success (ev : otp_event) : bool :=
  match ev with
  | Pushed name _ => String.eqb name "redirect_main"
  | _ => false
  end.

Definition firings (evs : list otp_event) : nat := length (List.filter is_fire evs).

(** The timer-related state of the OTP page: [n] seconds are left to show
    and one [tick] is pending. *)
Definition ticking (n : Z) (w : world Otp.vars) : Prop :=
  Otp.timeLeft (globals w) = n
  ∧ timeouts w = [("tick", [])]
  ∧ is_Some (document w !! "countdown")
  ∧ is_Some (document w !! "status").

(** The scripts of a page in the orders in which a page can include them. *)
Definition page_orders : list (list script) :=
  [[PageJs]; [GlobalJs; PageJs]; [PageJs; GlobalJs]].

(** The effects of the [DOMContentLoaded] listeners. *)
Definition overlay_shown : list effect := [SetDisplay "lockscreen" (js "flex")].


(** Every element of [w] is still an element of [w']. *)
Definition elements_kept {G} (w w' : world G) : Prop :=
  ∀ j, is_Some (document w !! j) → is_Some (document w' !! j).

(** A decimal digit. *)
Definition is_digit (c : N) : bool := ((48 <=? c) && (c <=? 57))%N.

(** ** Sample pages

    The element ids are those the scripts look up; the pages include
    [global.js] before their own script. *)
Definition login_doc : gmap string element :=
  list_to_map [("user", blank); ("pass", blank); ("status", blank);
               ("lockscreen", blank)].

Definition otp_doc : gmap string element :=
  list_to_map [("circle", blank); ("countdown", blank); ("status", blank);
               ("otp", blank); ("lockscreen", blank)].

Definition menu_doc : gmap string element :=
  list_to_map [("menu", blank); ("lockscreen", blank)].

Definition balance_doc : gmap string element :=
  list_to_map [("balance-amount", blank); ("lockscreen", blank)].

Definition otp_query (t : string) : query :=
  [(js "user", js "alice"); (js "status", js "customer"); (js "t", js t)].

(** The OTP page of a session without lockdown, loaded with seed [t]. *)
Definition otp_loaded (t : string) : world Otp.vars :=
  load Otp.the_page [GlobalJs; PageJs] otp_doc ∅ (Otp.init_vars (otp_query t)).

(** The same letter, in upper or lower case; a word spelt in any mix of
    the two. *)
Definition same_letter (c l : N) : Prop :=
  c = l ∨ ((65 <= c <= 90)%N ∧ (c + 32)%N = l).

Definition spells (word s : jsstring) : Prop := Forall2 same_letter s word.

Definition menu_query (user status : string) : query :=
  [(js "user", js user); (js "status", js status)].

Definition balance_query (bal : string) : query :=
  [(js "user", js "alice"); (js "status", js "customer"); (js "bal", js bal)].

(** The hundredths that [toFixed(2)] writes for [x]. *)
Definition hundredths (x : Q) : N :=
  Z.to_N (Qfloor (Qabs x * inject_Z 100 + (1 # 2))).

(** A computation that leaves the session storage, the registered
    listeners and the set of elements of the document as they are, and
    only adds to the trace. *)
Definition keeps_session {G A} (c : eff G A) : Prop :=
  ∀ w, sessionStorage (c w).2 = sessionStorage w
       ∧ listeners (c w).2 = listeners w
       ∧ dom (document (c w).2) = dom (document w)
       ∧ ∃ l, trace (c w).2 = trace w ++ l.

(** The OTP page loaded in a session under lockdown, with and without an
    overlay element. *)
Definition otp_loaded_locked (doc : gmap string element) : world Otp.vars :=
  load Otp.the_page [GlobalJs; PageJs] doc {["lockdown" := js "true"]}
       (Otp.init_vars (otp_query "60")).

(** The login page of a fresh session, and the same page after the backend
    has called [trigger_emergency_mode]. *)
Definition login_loaded : world unit :=
  load Login.the_page [GlobalJs; PageJs] login_doc ∅ ().

Definition login_after_emergency : world unit :=
  push Login.the_page "trigger_emergency_mode" [] login_loaded.

(** The page the session goes to next: it inherits the session storage. *)
Definition otp_after_emergency : world Otp.vars :=
  load Otp.the_page [GlobalJs; PageJs] otp_doc (sessionStorage login_after_emergency)
       (Otp.init_vars (otp_query "60")).

(** The main-menu and balance pages as their scripts find them. *)
Definition menu_world (status : string) : world MainMenu.vars :=
  World menu_doc ∅ [] ∅ [] [] (MainMenu.init_vars (menu_query "alice" status)).

Definition balance_world (bal : string) : world Balance.vars :=
  World balance_doc ∅ [] ∅ [] [] (Balance.init_vars (balance_query bal)).

(** A stand-in for [parseFloat] on the one text used below: 1250.5 is a
    binary64 number. *)
Definition parseFloat_sample (s : option jsstring) : jsnum :=
  if decide (s = Some (js "1250.5")) then Finite (2501 # 2) else NaN.

(** A computation that leaves the pending timeouts, the script's variables
    and the set of elements of the document as they are. *)
Definition keeps_timer {G A} (c : eff G A) : Prop :=
  ∀ w, timeouts (c w).2 = timeouts w
       ∧ globals (c w).2 = globals w
       ∧ dom (document (c w).2) = dom (document w).

(** ** Further vocabulary *)

(** The trace of the emergency handler of [global.js] up to its last
    step. *)
Definition emergency_prefix : list effect :=
  [ConsoleWarn ([0x26A0; 0xFE0F]%N ++ js "  EMERGENCY MODE TRIGGERED "
                ++ [0x26A0; 0xFE0F]%N);
   StorageSet "lockdown" (js "true")].

(** What [login] adds to the trace, from the three elements it looks up. *)
Definition login_outcome (user pass status : option element) : list effect :=
  match user, pass with
  | Some eu, Some ep =>
      if bool_decide (trim (el_value eu) = []) || bool_decide (trim (el_value ep) = [])
      then
        match status with
        | Some _ => [SetInnerText "status" (warning_sign ++ js " Enter username & password")]
        | None => [Uncaught]
        end
      else
        match status with
        | Some _ =>
            [SetInnerText "status" (js "Authenticating...");
             EelCall "login" [VStr (trim (el_value eu)); VStr (trim (el_value ep))]]
        | None => [Uncaught]
        end
  | _, _ => [Uncaught]
  end.

(** What [submitOtp] adds to the trace, from the two elements it looks up
    and the user name of the page. *)
Definition submit_outcome (otp status : option element) (username : option jsstring)
    : list effect :=
  match otp with
  | Some eo =>
      if bool_decide (trim (el_value eo) = []) || negb (length (trim (el_value eo)) =? 6)%nat
      then
        match status with
        | Some _ => [SetInnerText "status" (warning_sign ++ js " Enter 6 digits")]
        | None => [Uncaught]
        end
      else
        match status with
        | Some _ =>
            [SetInnerText "status" (js "Verifying...");
             EelCall "verify_otp" [val_of_string username; VStr (trim (el_value eo))]]
        | None => [Uncaught]
        end
  | None => [Uncaught]
  end.

Definition schedules (e : effect) : bool :=
  match e with
  | SetTimeout _ _ => true
  | _ => false
  end.

(** ** The search parameters of a navigation target *)

(** The scripts pass their state from page to page in the query of the
    URL they navigate to, and read it back on the next page with
    [new URL(window.location.href).searchParams]. The definitions below
    follow the URL Standard for a target made of a page name, a [?] and a
    query: the basic URL parser (leading and trailing C0 controls and
    spaces are stripped, tabs and newlines are removed, the query runs from
    the first [?] to the first [#] and is percent-encoded), then the
    [application/x-www-form-urlencoded] parser (split at [&], empty pieces
    skipped, each piece split at its first [=], [+] read as a space,
    percent-decoding, UTF-8 decoding with replacement). Serialising the
    parsed URL into [window.location.href] and parsing it again leaves the
    query as it is. *)

Definition is_c0_control_or_space (c : N) : bool := (c <=? 0x20)%N.

Definition is_tab_or_newline (c : N) : bool := ((c =? 9) || (c =? 10) || (c =? 13))%N.

Fixpoint strip_start (s : jsstring) : jsstring :=
  match s with
  | c :: s' => if is_c0_control_or_space c then strip_start s' else s
  | [] => []
  end.

Definition strip (s : jsstring) : jsstring := rev (strip_start (rev (strip_start s))).

Definition remove_tab_or_newline (s : jsstring) : jsstring :=
  List.filter (λ c, negb (is_tab_or_newline c)) s.

(** The part of [s] before the first [d], and the part after it, if [d]
    occurs. *)
Fixpoint before (d : N) (s : jsstring) : jsstring :=
  match s with
  | c :: s' => if (c =? d)%N then [] else c :: before d s'
  | [] => []
  end.

Fixpoint after (d : N) (s : jsstring) : option jsstring :=
  match s with
  | c :: s' => if (c =? d)%N then Some s' else after d s'
  | [] => None
  end.

(** The query percent-encode set, and the special-query one of the
    schemes http, https, ws, wss, ftp and file, which adds the
    apostrophe. *)
Definition in_query_percent_encode_set (special : bool) (c : N) : bool :=
  ((c <=? 0x1F) || (0x7E <? c) || (c =? 0x20) || (c =? 0x22) || (c =? 0x23)
   || (c =? 0x3C) || (c =? 0x3E) || (special && (c =? 0x27)))%N.

Definition hex_digit (n : N) : N := (if n <? 10 then 48 + n else 55 + n)%N.

Definition percent_encode_byte (b : N) : jsstring :=
  [37%N; hex_digit (b / 16); hex_digit (b mod 16)].

(** On ASCII code points, each of which is one byte of UTF-8. *)
Definition percent_encode (special : bool) (s : jsstring) : jsstring :=
  concat ((λ c, if in_query_percent_encode_set special c
                then percent_encode_byte c else [c]) <$> s).

(** The query of the URL that [target] is parsed into, [None] when it has
    none. *)
Definition url_query (special : bool) (target : jsstring) : option jsstring :=
  percent_encode special
    <$> after 63 (before 35 (remove_tab_or_newline (strip target))).

Definition plus_to_space (c : N) : N := if (c =? 43)%N then 32%N else c.

Fixpoint percent_decode (s : list N) : list N :=
  match s with
  | c :: s' =>
      if (c =? 37)%N then
        match s' with
        | h :: l :: s'' =>
            match digit_value 16 h, digit_value 16 l with
            | Some a, Some b => (16 * a + b)%N :: percent_decode s''
            | _, _ => c :: percent_decode s'
            end
        | _ => c :: percent_decode s'
        end
      else c :: percent_decode s'
  | [] => []
  end.

(** The state of the UTF-8 decoder inside a sequence: the code point so
    far, the bytes still needed, the bounds of the next byte. *)
Record utf8_pending := Pending {
  code_point : N;
  bytes_needed : nat;
  lower_boundary : N;
  upper_boundary : N
}.

(** A byte met outside a sequence: the code points it gives and the
    sequence it opens. *)
Definition utf8_lead (b : N) : list N * option utf8_pending :=
  (if b <=? 0x7F then ([b], None)
   else if (0xC2 <=? b) && (b <=? 0xDF) then
     ([], Some (Pending (N.land b 0x1F) 1 0x80 0xBF))
   else if (0xE0 <=? b) && (b <=? 0xEF) then
     ([], Some (Pending (N.land b 0xF) 2
                        (if b =? 0xE0 then 0xA0 else 0x80)
                        (if b =? 0xED then 0x9F else 0xBF)))
   else if (0xF0 <=? b) && (b <=? 0xF4) then
     ([], Some (Pending (N.land b 0x7) 3
                        (if b =? 0xF0 then 0x90 else 0x80)
                        (if b =? 0xF4 then 0x8F else 0xBF)))
   else ([0xFFFD], None))%N.

(** UTF-8 decode without BOM, errors replaced by U+FFFD; a byte that
    breaks a sequence is read again as the start of the next one. *)
Fixpoint utf8_decode (st : option utf8_pending) (s : list N) : list N :=
  match s with
  | b :: s' =>
      match st with
      | None => (utf8_lead b).1 ++ utf8_decode (utf8_lead b).2 s'
      | Some p =>
          if ((lower_boundary p <=? b) && (b <=? upper_boundary p))%N then
            let cp := N.lor (N.shiftl (code_point p) 6) (N.land b 0x3F) in
            match bytes_needed p with
            | S (S n) => utf8_decode (Some (Pending cp (S n) 0x80 0xBF)) s'
            | _ => cp :: utf8_decode None s'
            end
          else 0xFFFD%N :: (utf8_lead b).1 ++ utf8_decode (utf8_lead b).2 s'
      end
  | [] =>
      match st with
      | None => []
      | Some _ => [0xFFFD%N]
      end
  end.

(** The code units of a code point. *)
Definition utf16 (cp : N) : jsstring :=
  (if cp <? 0x10000 then [cp]
   else [0xD800 + (cp - 0x10000) / 0x400; 0xDC00 + (cp - 0x10000) mod 0x400])%N.

(** A name or a value of the query, decoded. *)
Definition urlencoded_decode (s : list N) : jsstring :=
  concat (utf16 <$> utf8_decode None (percent_decode (plus_to_space <$> s))).

Fixpoint split_on (d : N) (s : list N) : list (list N) :=
  match s with
  | c :: s' =>
      if (c =? d)%N then [] :: split_on d s'
      else
        match split_on d s' with
        | piece :: pieces => (c :: piece) :: pieces
        | [] => [[c]]
        end
  | [] => [[]]
  end.

Definition urlencoded_parse (s : list N) : query :=
  (λ piece, (urlencoded_decode (before 61 piece),
             urlencoded_decode (default [] (after 61 piece))))
  <$> List.filter (λ piece, negb (bool_decide (piece = []))) (split_on 38 s).

(** [new URL(window.location.href).searchParams] on the page reached by
    navigating to [target]. Only targets of ASCII code units are covered:
    for the others the bytes of the query depend on the character encoding
    of the navigating document, and the result here is [None]. *)
Definition searchParams (special : bool) (target : jsstring) : option query :=
  if forallb (λ c, c <=? 0x7F)%N target then
    Some (urlencoded_parse (default [] (url_query special target)))
  else None.

(** A code unit that the parsers above neither remove nor rewrite, other
    than the delimiters of the query: printable ASCII without the space,
    the quotation marks, [#], [%], [&], [+], [<], [=] and [>]. *)
Definition is_plain (c : N) : bool :=
  ((0x21 <=? c) && (c <=? 0x7E)
   && negb ((c =? 0x22) || (c =? 0x23) || (c =? 0x25) || (c =? 0x26) || (c =? 0x27)
            || (c =? 0x2B) || (c =? 0x3C) || (c =? 0x3D) || (c =? 0x3E)))%N.

(** The URL that a navigation of the scripts leads to. *)
Definition target_of (e : effect) : option jsstring :=
  match e with
  | Navigate url => Some url
  | _ => None
  end.

(** A query written the way the template literals of the scripts write
    it: [name=value] joined by [&], nothing encoded. *)
Fixpoint query_string (q : query) : jsstring :=
  match q with
  | [] => []
  | (k, v) :: q' =>
      match q' with
      | [] => k ++ 61%N :: v
      | _ => k ++ 61%N :: v ++ 38%N :: query_string q'
      end
  end.

(** Names and values of plain code units. *)
Definition plain_query (q : query) : Prop :=
  Forall (λ kv, Forall (λ c, is_plain c = true) kv.1
                ∧ Forall (λ c, is_plain c = true) kv.2) q.

(** The URL that the computation [c] leaves the page for, and the search
    parameters that the script of the next page reads. *)
Definition destination {G} (c : eff G unit) (w : world G) : option jsstring :=
  last (omap target_of (added w (run c w))).

Definition next_query {G} (special : bool) (c : eff G unit) (w : world G) : option query :=
  destination c w ≫= searchParams special.

(** ** Numbers and markup within the range of the model *)

(** A value whose text in a template literal is the one [show_val]
    gives: anything but a number beyond 2^53 in magnitude. *)
Definition exact_val (v : jsval) : Prop :=
  match v with
  | VNum z => - 2 ^ 53 <= z <= 2 ^ 53
  | _ => True
  end.

(** The texts in which [parseInt] finds no number: after the leading
    white space and an optional sign no digit follows, in radix 16 after
    a prefix 0x or 0X and in radix 10 otherwise. *)
Definition no_leading_number (s : jsstring) : bool :=
  let '(radix, d) := split_radix (split_sign (trimStart s)).2 in
  match d with
  | c :: _ => bool_decide (digit_value radix c = None)
  | [] => true
  end.

(** A code unit that is text in a markup and that the serialiser writes
    back as it is: printable ASCII other than [&], [<] and [>]. *)
Definition is_text_unit (c : N) : bool :=
  ((0x20 <=? c) && (c <=? 0x7E) && negb ((c =? 38) || (c =? 60) || (c =? 62)))%N.

Fixpoint starts_with (p s : jsstring) : bool :=
  match p, s with
  | [], _ => true
  | a :: p', b :: s' => (a =? b)%N && starts_with p' s'
  | _ :: _, [] => false
  end.

(** The buttons of a markup, in order: for each tag opened with
    [<button], its attributes and the text that follows the tag. *)
Definition button_of (piece : jsstring) : option (jsstring * jsstring) :=
  if starts_with (js "button") piece then
    Some (before 62 (drop 6 piece), before 60 (default [] (after 62 piece)))
  else None.

Definition buttons_of (html : jsstring) : list (jsstring * jsstring) :=
  omap button_of (tail (split_on 60 html)).

(** The attributes and the label of a button of the menu. *)
Definition menu_button (b : option string * string) : jsstring * jsstring :=
  (match b.1 with
   | Some h => js " onclick=" ++ dq ++ js h ++ dq
   | None => []
   end, js b.2).

(** Stand-ins for [parseFloat] and [Number::toString] on the one text
    used below: "1e21" denotes 10^21, a binary64 number, which
    [Number::toString] writes as 1e+21. *)
Definition parseFloat_large (s : option jsstring) : jsnum :=
  if decide (s = Some (js "1e21")) then Finite (inject_Z (10 ^ 21)) else NaN.

Definition number_toString_large (x : Q) : jsstring := js "1e+21".

(** * Properties *)

(** ** Reduction of the primitives *)

Lemma added_app {G} (w w' : world G) (l : list effect) :
  trace w' = trace w ++ l → added w w' = l.
Proof. intros E. unfold added. rewrite E. apply drop_app_length. Qed.

Lemma document_type_into {G} (id : string) (v : jsstring) (w : world G) (j : string) :
  document (type_into id v w) !! j =
  if decide (id = j)
  then (λ e, Element v (el_innerText e) (el_innerHTML e) (el_display e)) <$> document w !! j
  else document w !! j.
Proof. unfold type_into; simpl. rewrite lookup_alter. by case_decide; subst. Qed.

Section Reduction.
Context {G : Type}.
  Implicit Types (w : world G) (id : string).

Lemma bind_eq {A B} (c : eff G A) (f : A → eff G B) w :
  (c ≫= f) w = match c w with
               | (Return a, w') => f a w'
               | (Throw, w') => (Throw, w')
               end.
Proof. reflexivity. Qed.

Lemma ret_eq {A} (a : A) w : (mret a : eff G A) w = (Return a, w).
Proof. reflexivity. Qed.

Lemma getElementById_found id w e :
  document w !! id = Some e → getElementById id w = (Return (Some id), w).
Proof. intros E. unfold getElementById. by rewrite E. Qed.

Lemma getElementById_null id w :
  document w !! id = None → getElementById id w = (Return None, w).
Proof. intros E. unfold getElementById. by rewrite E. Qed.

Lemma get_value_eq id w e :
  document w !! id = Some e → get_value (Some id) w = (Return (el_value e), w).
Proof. intros E. unfold get_value, get_prop. by rewrite E. Qed.

Lemma get_innerHTML_eq id w e :
  document w !! id = Some e → get_innerHTML (Some id) w = (Return (el_innerHTML e), w).
Proof. intros E. unfold get_innerHTML, get_prop. by rewrite E. Qed.

Lemma set_innerText_eq id t w :
  set_innerText (Some id) t w =
  (Return (),
   World (alter (λ e, Element (el_value e) t (el_innerHTML e) (el_display e))
                id (document w))
         (sessionStorage w) (timeouts w) (exposed w) (listeners w)
         (trace w ++ [SetInnerText id t]) (globals w)).
Proof. reflexivity. Qed.

Lemma set_innerHTML_eq id t w :
  set_innerHTML (Some id) t w =
  (Return (),
   World (alter (λ e, Element (el_value e) (el_innerText e) t (el_display e))
                id (document w))
         (sessionStorage w) (timeouts w) (exposed w) (listeners w)
         (trace w ++ [SetInnerHTML id t]) (globals w)).
Proof. reflexivity. Qed.

Lemma set_display_eq id v w :
  set_display (Some id) v w =
  (Return (),
   World (alter (λ e, Element (el_value e) (el_innerText e) (el_innerHTML e) v)
                id (document w))
         (sessionStorage w) (timeouts w) (exposed w) (listeners w)
         (trace w ++ [SetDisplay id v]) (globals w)).
Proof. reflexivity. Qed.

Lemma emit_eq e w :
  emit e w =
  (Return (), World (document w) (sessionStorage w) (timeouts w) (exposed w)
                    (listeners w) (trace w ++ [e]) (globals w)).
Proof. reflexivity. Qed.

Lemma get_globals_eq w : get_globals w = (Return (globals w), w).
Proof. reflexivity. Qed.

Lemma set_globals_eq g w :
  set_globals g w =
  (Return (), World (document w) (sessionStorage w) (timeouts w) (exposed w)
                    (listeners w) (trace w) g).
Proof. reflexivity. Qed.

Lemma setTimeout_eq cb captured ms w :
  setTimeout cb captured ms w =
  (Return (), World (document w) (sessionStorage w) (timeouts w ++ [(cb, captured)])
                    (exposed w) (listeners w) (trace w ++ [SetTimeout cb ms])
                    (globals w)).
Proof. reflexivity. Qed.

Lemma set_timeouts_eq t w :
  set_timeouts t w =
  (Return (), World (document w) (sessionStorage w) t (exposed w) (listeners w)
                    (trace w) (globals w)).
Proof. reflexivity. Qed.

Lemma addEventListener_eq s w :
  addEventListener_DOMContentLoaded s w =
  (Return (), World (document w) (sessionStorage w) (timeouts w) (exposed w)
                    (listeners w ++ [s]) (trace w) (globals w)).
Proof. reflexivity. Qed.

Lemma sessionStorage_getItem_eq k w :
  sessionStorage_getItem k w = (Return (sessionStorage w !! k), w).
Proof. reflexivity. Qed.

Lemma sessionStorage_setItem_eq k v w :
  sessionStorage_setItem k v w =
  (Return (), World (document w) (<[k := v]> (sessionStorage w)) (timeouts w)
                    (exposed w) (listeners w) (trace w ++ [StorageSet k v])
                    (globals w)).
Proof. reflexivity. Qed.

Lemma eel_expose_eq s name w :
  eel_expose s name w =
  (Return (), World (document w) (sessionStorage w) (timeouts w)
                    (<[name := s]> (exposed w)) (listeners w) (trace w)
                    (globals w)).
Proof. reflexivity. Qed.
End Reduction.

(** One step of a handler: the next primitive is replaced by its result.
    Lookups in the document are closed with the hypotheses at hand. *)
Ltac solve_lookup :=
  cbn [document sessionStorage timeouts exposed listeners trace globals];
  rewrite ?lookup_alter_ne by done;
  eassumption.

Ltac eff_prim :=
  first
    [ erewrite getElementById_found by solve_lookup
    | rewrite getElementById_null by solve_lookup
    | erewrite get_value_eq by solve_lookup
    | erewrite get_innerHTML_eq by solve_lookup
    | rewrite set_innerText_eq
    | rewrite set_innerHTML_eq
    | rewrite set_display_eq
    | rewrite get_globals_eq
    | rewrite set_globals_eq
    | rewrite setTimeout_eq
    | rewrite set_timeouts_eq
    | rewrite addEventListener_eq
    | rewrite sessionStorage_getItem_eq
    | rewrite sessionStorage_setItem_eq
    | rewrite eel_expose_eq
    | rewrite emit_eq
    | rewrite ret_eq ];
  cbv beta iota;
  cbn [document sessionStorage timeouts exposed listeners trace globals];
  rewrite ?lookup_alter_ne by done.

Ltac eff_step := rewrite bind_eq; eff_prim.

(** ** Login *)

(** C6. Whatever the user typed as identity and credential: when one of
    them is empty once trimmed, [login] sets the validation message and
    calls nothing; otherwise it sets the authenticating message, calls the
    backend's [login] exactly once with the trimmed values, and requests no
    navigation. *)
Theorem login_validates_then_calls_once {G} (w : world G) (identity credential : jsstring) :
  is_Some (document w !! "user") →
  is_Some (document w !! "pass") →
  is_Some (document w !! "status") →
  let w0 := type_into "user" identity (type_into "pass" credential w) in
  let w' := run Login.login w0 in
  (trim identity = [] ∨ trim credential = [] →
     added w0 w' = [SetInnerText "status" (warning_sign ++ js " Enter username & password")]
     ∧ calls (added w0 w') = [])
  ∧ (trim identity ≠ [] ∧ trim credential ≠ [] →
     added w0 w' = [SetInnerText "status" (js "Authenticating...");
                    EelCall "login" [VStr (trim identity); VStr (trim credential)]]
     ∧ length (calls (added w0 w')) = 1%nat
     ∧ navigations (added w0 w') = []).
Proof.
  intros [eu Hu] [ep Hp] [es Hs] w0 w'.
  assert (Hu0 : document w0 !! "user"
                = Some (Element identity (el_innerText eu) (el_innerHTML eu) (el_display eu))).
  { unfold w0. rewrite document_type_into. case_decide; [|done].
    rewrite document_type_into. case_decide; [done|]. by rewrite Hu. }
  assert (Hp0 : document w0 !! "pass"
                = Some (Element credential (el_innerText ep) (el_innerHTML ep) (el_display ep))).
  { unfold w0. rewrite document_type_into. case_decide; [done|].
    rewrite document_type_into. case_decide; [|done]. by rewrite Hp. }
  assert (Hs0 : document w0 !! "status" = Some es).
  { unfold w0. rewrite !document_type_into. repeat case_decide; done. }
  subst w'. generalize dependent w0. intros w0 Hu0 Hp0 Hs0.
  unfold run, Login.login, eel_call. do 4 eff_step. cbn [el_value].
  split.
  - intros Hempty.
    assert (E : bool_decide (trim identity = []) || bool_decide (trim credential = []) = true).
    { destruct Hempty as [E|E]; rewrite E; simpl; [done|]. by rewrite orb_true_r. }
    rewrite E. eff_step. eff_prim.
    erewrite added_app; [|simpl; reflexivity]. done.
  - intros [Hi Hc].
    assert (E : bool_decide (trim identity = []) || bool_decide (trim credential = []) = false).
    { rewrite !bool_decide_eq_false_2; done. }
    rewrite E. do 2 eff_step. eff_prim.
    erewrite added_app; [|simpl; rewrite <- app_assoc; reflexivity]. done.
Qed.

(** ** What the top-level code of the page scripts leaves untouched *)

Section Keeps.
Context {G : Type}.

Lemma keeps_ret {A} (a : A) : keeps_session (mret a : eff G A).
Proof. intros w. repeat split. exists []. by rewrite app_nil_r. Qed.

Lemma keeps_throw {A} : keeps_session (throw : eff G A).
Proof. intros w. repeat split. exists []. by rewrite app_nil_r. Qed.

Lemma keeps_bind {A B} (c : eff G A) (f : A → eff G B) :
  keeps_session c → (∀ a, keeps_session (f a)) → keeps_session (c ≫= f).
Proof.
  intros Hc Hf w. rewrite bind_eq. destruct (Hc w) as (S1 & L1 & D1 & l1 & T1).
  destruct (c w) as [[a|] w1]; cbn [snd] in *; [|by eauto].
  destruct (Hf a w1) as (S2 & L2 & D2 & l2 & T2).
  repeat split; try congruence. exists (l1 ++ l2). by rewrite T2, T1, app_assoc.
Qed.

Lemma keeps_emit (e : effect) : keeps_session (emit e : eff G unit).
Proof. intros w. repeat split. by exists [e]. Qed.

Lemma keeps_getElementById (id : string) : keeps_session (getElementById id : eff G _).
Proof. intros w. repeat split. exists []. by rewrite app_nil_r. Qed.

Lemma keeps_get_prop {A} (f : element → A) (h : option string) :
  keeps_session (get_prop f h : eff G A).
Proof.
  intros w. unfold get_prop. destruct h as [id|]; [destruct (document w !! id)|];
    repeat split; exists []; by rewrite app_nil_r.
Qed.

Lemma keeps_set_prop (f : element → element) (log : string → effect) (h : option string) :
  keeps_session (set_prop f log h : eff G unit).
Proof.
  intros w. unfold set_prop. destruct h as [id|]; [|by apply keeps_throw].
  repeat split; cbn; [apply dom_alter_L | by eexists].
Qed.

Lemma keeps_set_innerText h t : keeps_session (set_innerText h t : eff G unit).
Proof. apply keeps_set_prop. Qed.

Lemma keeps_set_innerHTML h t : keeps_session (set_innerHTML h t : eff G unit).
Proof. apply keeps_set_prop. Qed.

Lemma keeps_set_display h v : keeps_session (set_display h v : eff G unit).
Proof. apply keeps_set_prop. Qed.

Lemma keeps_get_value h : keeps_session (get_value h : eff G _).
Proof. apply keeps_get_prop. Qed.

Lemma keeps_get_innerHTML h : keeps_session (get_innerHTML h : eff G _).
Proof. apply keeps_get_prop. Qed.

Lemma keeps_navigate url : keeps_session (navigate url : eff G unit).
Proof. apply keeps_emit. Qed.

Lemma keeps_eel_call fn args : keeps_session (eel_call fn args : eff G unit).
Proof. apply keeps_emit. Qed.

Lemma keeps_get_globals : keeps_session (get_globals : eff G G).
Proof. intros w. repeat split. exists []. by rewrite app_nil_r. Qed.

Lemma keeps_set_globals (g : G) : keeps_session (set_globals g).
Proof. intros w. repeat split. exists []. by rewrite app_nil_r. Qed.

Lemma keeps_setTimeout (cb : string) (captured : list jsval) (ms : Z) :
  keeps_session (setTimeout cb captured ms : eff G unit).
Proof. intros w. repeat split. by eexists. Qed.

Lemma keeps_eel_expose (s : script) (name : string) :
  keeps_session (eel_expose s name : eff G unit).
Proof. intros w. repeat split. exists []. by rewrite app_nil_r. Qed.

Lemma keeps_run (c : eff G unit) (w : world G) :
  keeps_session c →
  sessionStorage (run c w) = sessionStorage w
  ∧ listeners (run c w) = listeners w
  ∧ dom (document (run c w)) = dom (document w)
  ∧ ∃ l, trace (run c w) = trace w ++ l.
Proof.
  intros Hc. unfold run. destruct (Hc w) as (S1 & L1 & D1 & l1 & T1).
  destruct (c w) as [[[]|] w1]; cbn [snd] in *; [by eauto|].
  repeat split; try done. exists (l1 ++ [Uncaught]). cbn. by rewrite T1, app_assoc.
Qed.
End Keeps.

Create HintDb keeps.
#[export] Hint Resolve keeps_ret keeps_throw keeps_emit keeps_getElementById
  keeps_set_innerText keeps_set_innerHTML keeps_set_display keeps_get_value
  keeps_get_innerHTML keeps_navigate keeps_eel_call keeps_get_globals
  keeps_set_globals keeps_setTimeout keeps_eel_expose : keeps.

(** Closes [keeps_session c] for a [c] written with the primitives. *)
Ltac keeps :=
  repeat first
    [ solve [auto with keeps]
    | match goal with
      | |- keeps_session (match ?x with _ => _ end) => destruct x
      | |- keeps_session (_ ≫= _) => apply keeps_bind; [|intros ?]
      end ].

Lemma keeps_page_trigger {G} : keeps_session (page_trigger_emergency_mode : eff G unit).
Proof. unfold page_trigger_emergency_mode. keeps. Qed.

Lemma keeps_login_toplevel {G} : keeps_session (Login.toplevel : eff G unit).
Proof. unfold Login.toplevel. keeps. Qed.

Lemma keeps_otp_toplevel : keeps_session Otp.toplevel.
Proof. unfold Otp.toplevel, Otp.tick, Otp.draw. keeps. Qed.

Lemma keeps_menu_toplevel : keeps_session MainMenu.toplevel.
Proof. unfold MainMenu.toplevel. keeps. Qed.

Lemma keeps_balance_toplevel (parseFloat : option jsstring → jsnum)
    (number_toString : Q → jsstring) :
  keeps_session (Balance.toplevel parseFloat number_toString).
Proof. unfold Balance.toplevel. keeps. Qed.

(** ** What the event handlers of the OTP page leave untouched *)

Section KeepsTimer.
Context {G : Type}.

Lemma timer_ret {A} (a : A) : keeps_timer (mret a : eff G A).
Proof. by intros w. Qed.

Lemma timer_throw {A} : keeps_timer (throw : eff G A).
Proof. by intros w. Qed.

Lemma timer_bind {A B} (c : eff G A) (f : A → eff G B) :
  keeps_timer c → (∀ a, keeps_timer (f a)) → keeps_timer (c ≫= f).
Proof.
  intros Hc Hf w. rewrite bind_eq. destruct (Hc w) as (T1 & G1 & D1).
  destruct (c w) as [[a|] w1]; cbn [snd] in *; [|done].
  destruct (Hf a w1) as (T2 & G2 & D2). repeat split; congruence.
Qed.

Lemma timer_emit (e : effect) : keeps_timer (emit e : eff G unit).
Proof. by intros w. Qed.

Lemma timer_getElementById (id : string) : keeps_timer (getElementById id : eff G _).
Proof. by intros w. Qed.

Lemma timer_get_value h : keeps_timer (get_value h : eff G _).
Proof.
  intros w. unfold get_value, get_prop.
  by destruct h as [id|]; [destruct (document w !! id)|].
Qed.

Lemma timer_set_prop (f : element → element) (log : string → effect) (h : option string) :
  keeps_timer (set_prop f log h : eff G unit).
Proof.
  intros w. unfold set_prop. destruct h as [id|]; [|done].
  repeat split. cbn. apply dom_alter_L.
Qed.

Lemma timer_set_innerText h t : keeps_timer (set_innerText h t : eff G unit).
Proof. apply timer_set_prop. Qed.

Lemma timer_set_display h v : keeps_timer (set_display h v : eff G unit).
Proof. apply timer_set_prop. Qed.

Lemma timer_navigate url : keeps_timer (navigate url : eff G unit).
Proof. apply timer_emit. Qed.

Lemma timer_eel_call fn args : keeps_timer (eel_call fn args : eff G unit).
Proof. apply timer_emit. Qed.

Lemma timer_get_globals : keeps_timer (get_globals : eff G G).
Proof. by intros w. Qed.

Lemma timer_setItem k v : keeps_timer (sessionStorage_setItem k v : eff G unit).
Proof. by intros w. Qed.

Lemma timer_run (c : eff G unit) (w : world G) :
  keeps_timer c →
  timeouts (run c w) = timeouts w
  ∧ globals (run c w) = globals w
  ∧ dom (document (run c w)) = dom (document w).
Proof.
  intros Hc. unfold run. destruct (Hc w) as (T1 & G1 & D1).
  by destruct (c w) as [[[]|] w1].
Qed.
End KeepsTimer.

Create HintDb timer.
#[export] Hint Resolve timer_ret timer_throw timer_emit timer_getElementById
  timer_get_value timer_set_innerText timer_set_display timer_navigate
  timer_eel_call timer_get_globals timer_setItem : timer.

Ltac keeps_timer :=
  repeat first
    [ solve [auto with timer]
    | match goal with
      | |- keeps_timer (match ?x with _ => _ end) => destruct x
      | |- keeps_timer (_ ≫= _) => apply timer_bind; [|intros ?]
      end ].

Lemma timer_submitOtp : keeps_timer Otp.submitOtp.
Proof. unfold Otp.submitOtp. keeps_timer. Qed.

Lemma timer_otp_function (name : string) (args : list jsval) :
  keeps_timer (Otp.function name args).
Proof.
  unfold Otp.function, Otp.otp_failed, Otp.redirect_main, page_trigger_emergency_mode.
  keeps_timer.
Qed.

Lemma timer_global_function {G} (name : string) (args : list jsval) :
  keeps_timer (Global.function name args : eff G unit).
Proof. unfold Global.function, Global.trigger_emergency_mode. keeps_timer. Qed.

(** ** The OTP countdown *)

Lemma tick_while_running (w : world Otp.vars) (e : element) :
  document w !! "countdown" = Some e →
  0 < Otp.timeLeft (globals w) →
  Otp.tick w =
  (Return (),
   World (alter (λ e, Element (el_value e) (countdown_text (Otp.timeLeft (globals w)))
                              (el_innerHTML e) (el_display e))
                "countdown" (document w))
         (sessionStorage w) (timeouts w ++ [("tick", [])]) (exposed w) (listeners w)
         (trace w ++ running_tick (Otp.timeLeft (globals w)))
         (Otp.Vars (Otp.username (globals w)) (Otp.status (globals w))
                   (Otp.timeLeft (globals w) - 1))).
Proof.
  intros Hc Hpos. unfold Otp.tick, Otp.draw.
  rewrite bind_eq. eff_step. eff_prim. do 3 eff_step.
  replace (Otp.timeLeft (globals w) <=? 0) with false by lia.
  eff_step. eff_prim. unfold running_tick, countdown_text.
  by rewrite <- !app_assoc.
Qed.

Lemma tick_at_zero (w : world Otp.vars) (e es : element) :
  document w !! "countdown" = Some e →
  document w !! "status" = Some es →
  Otp.timeLeft (globals w) <= 0 →
  Otp.tick w =
  (Return (),
   World (alter (λ e, Element (el_value e) expired_text (el_innerHTML e) (el_display e))
                "status"
           (alter (λ e, Element (el_value e) (countdown_text (Otp.timeLeft (globals w)))
                                (el_innerHTML e) (el_display e))
                  "countdown" (document w)))
         (sessionStorage w) (timeouts w) (exposed w) (listeners w)
         (trace w ++ last_tick (Otp.timeLeft (globals w)))
         (globals w)).
Proof.
  intros Hc Hs Hle. unfold Otp.tick, Otp.draw.
  rewrite bind_eq. eff_step. eff_prim. do 3 eff_step.
  replace (Otp.timeLeft (globals w) <=? 0) with true by lia.
  eff_step. eff_prim. unfold last_tick, countdown_text, expired_text.
  by rewrite <- !app_assoc.
Qed.

Lemma is_Some_alter (f : element → element) (id j : string) (d : gmap string element) :
  is_Some (d !! j) → is_Some (alter f id d !! j).
Proof.
  intros [e E]. rewrite lookup_alter. case_decide; subst; rewrite E; simpl; eauto.
Qed.

Lemma fire_idle (w : world Otp.vars) : timeouts w = [] → fire w = w.
Proof. intros E. unfold fire, fire_timeout. by rewrite E. Qed.

Lemma fire_ticking (n : Z) (w : world Otp.vars) :
  ticking n w → 0 < n →
  ticking (n - 1) (fire w)
  ∧ trace (fire w) = trace w ++ running_tick n
  ∧ elements_kept w (fire w).
Proof.
  intros (Hn & Ht & [ec Hc] & [es Hs]) Hpos.
  unfold fire, fire_timeout, elements_kept. rewrite Ht. unfold run.
  eff_step. change (page_callback Otp.the_page "tick" []) with Otp.tick.
  erewrite tick_while_running; [| solve_lookup | cbn [globals]; lia].
  cbn [document sessionStorage timeouts exposed listeners trace globals].
  rewrite Hn. repeat split; try done; try by apply is_Some_alter.
  intros j. apply is_Some_alter.
Qed.

Lemma fire_last (w : world Otp.vars) :
  ticking 0 w →
  timeouts (fire w) = []
  ∧ Otp.timeLeft (globals (fire w)) = 0
  ∧ trace (fire w) = trace w ++ last_tick 0
  ∧ el_innerText <$> document (fire w) !! "status" = Some expired_text
  ∧ el_innerText <$> document (fire w) !! "countdown" = Some (countdown_text 0)
  ∧ elements_kept w (fire w).
Proof.
  intros (Hn & Ht & [ec Hc] & [es Hs]).
  unfold fire, fire_timeout, elements_kept. rewrite Ht. unfold run.
  eff_step. change (page_callback Otp.the_page "tick" []) with Otp.tick.
  erewrite tick_at_zero; [| solve_lookup | solve_lookup | cbn [globals]; lia].
  cbn [document sessionStorage timeouts exposed listeners trace globals].
  rewrite Hn. repeat split; try done.
  - rewrite lookup_alter. case_decide; [|done].
    rewrite lookup_alter_ne by done. by rewrite Hs.
  - rewrite lookup_alter_ne by done. rewrite lookup_alter. case_decide; [|done].
    by rewrite Hc.
  - intros j Hj. by do 2 apply is_Some_alter.
Qed.

Lemma iter_fire_ticking (k : nat) (n : Z) (w : world Otp.vars) :
  ticking n w → Z.of_nat k <= n →
  ticking (n - Z.of_nat k) (Nat.iter k fire w)
  ∧ trace (Nat.iter k fire w) = trace w ++ ticks_from n k
  ∧ elements_kept w (Nat.iter k fire w).
Proof.
  intros Hw. induction k as [|k IH]; intros Hk.
  - simpl. rewrite Z.sub_0_r, app_nil_r. split; [done|]. split; [done|]. by intros j.
  - destruct IH as (IH1 & IH2 & IH3); [lia|].
    rewrite Nat.iter_succ.
    destruct (fire_ticking _ _ IH1) as (F1 & F2 & F3); [lia|].
    replace (n - Z.of_nat (S k)) with (n - Z.of_nat k - 1) by lia.
    split; [done|]. split.
    + rewrite F2, IH2. cbn [ticks_from]. by rewrite app_assoc.
    + intros j Hj. by apply F3, IH3.
Qed.

(** ** Loading *)

Lemma run_global_toplevel {G} (w : world G) :
  run Global.toplevel w =
  World (document w) (sessionStorage w) (timeouts w)
        (<["trigger_emergency_mode" := GlobalJs]> (exposed w))
        (listeners w ++ [GlobalJs]) (trace w) (globals w).
Proof. unfold run, Global.toplevel. eff_step. eff_prim. done. Qed.

(** What the [DOMContentLoaded] listener of [global.js] does, by cases on
    the flag and on the overlay element. *)
Lemma run_on_DOMContentLoaded {G} (w : world G) :
  let w' := run Global.on_DOMContentLoaded w in
  sessionStorage w' = sessionStorage w
  ∧ timeouts w' = timeouts w
  ∧ exposed w' = exposed w
  ∧ listeners w' = listeners w
  ∧ globals w' = globals w
  ∧ (∀ j, is_Some (document w !! j) → is_Some (document w' !! j))
  ∧ ((sessionStorage w !! "lockdown" = Some (js "true")
      ∧ is_Some (document w !! "lockscreen")
      ∧ trace w' = trace w ++ [SetDisplay "lockscreen" (js "flex")]
      ∧ el_display <$> document w' !! "lockscreen" = Some (js "flex"))
     ∨ ((sessionStorage w !! "lockdown" ≠ Some (js "true")
         ∨ document w !! "lockscreen" = None)
        ∧ w' = w)).
Proof.
  unfold run, Global.on_DOMContentLoaded. eff_step.
  destruct (decide (sessionStorage w !! "lockdown" = Some (js "true"))) as [E|E].
  - destruct (document w !! "lockscreen") as [e|] eqn:L.
    + eff_step. eff_prim. repeat split; try done.
      * intros j. apply is_Some_alter.
      * left. repeat split; try done. rewrite lookup_alter. case_decide; [|done].
        by rewrite L.
    + eff_step. eff_prim. repeat split; try done. right. split; [by right|].
      by destruct w.
  - eff_prim. repeat split; try done. right. split; [by left|]. by destruct w.
Qed.

Lemma run_otp_toplevel (w : world Otp.vars) :
  is_Some (document w !! "circle") →
  is_Some (document w !! "countdown") →
  0 < Otp.timeLeft (globals w) →
  run Otp.toplevel w =
  World (alter (λ e, Element (el_value e) (countdown_text (Otp.timeLeft (globals w)))
                             (el_innerHTML e) (el_display e))
               "countdown" (document w))
        (sessionStorage w) (timeouts w ++ [("tick", [])])
        (<["trigger_emergency_mode" := PageJs]>
           (<["redirect_main" := PageJs]> (<["otp_failed" := PageJs]> (exposed w))))
        (listeners w)
        (trace w ++ running_tick (Otp.timeLeft (globals w)))
        (Otp.Vars (Otp.username (globals w)) (Otp.status (globals w))
                  (Otp.timeLeft (globals w) - 1)).
Proof.
  intros [ci Hci] [ec Hc] Hpos. unfold run, Otp.toplevel.
  eff_step. eff_step. rewrite bind_eq.
  erewrite tick_while_running by eassumption. cbv beta iota.
  do 2 eff_step. eff_prim. done.
Qed.

Lemma load_otp (N : Z) (order : list script) (doc : gmap string element)
    (store : gmap string jsstring) (g : Otp.vars) :
  Otp.timeLeft g = N → 1 <= N →
  order ∈ page_orders →
  is_Some (doc !! "circle") → is_Some (doc !! "countdown") → is_Some (doc !! "status") →
  let w0 := load Otp.the_page order doc store g in
  ticking (N - 1) w0
  ∧ (∀ j, is_Some (doc !! j) → is_Some (document w0 !! j))
  ∧ ∃ dcl, trace w0 = running_tick N ++ dcl ∧ (dcl = [] ∨ dcl = overlay_shown).
Proof.
  intros HN Hpos Horder Hci Hc Hs. unfold load, page_orders in *.
  set (w := World doc store [] ∅ [] [] g).
  assert (Hw : ∀ wa : world Otp.vars,
            document wa = doc → timeouts wa = [] → trace wa = [] → globals wa = g →
            sessionStorage wa = store →
            let wb := run Otp.toplevel wa in
            ticking (N - 1) wb ∧ (∀ j, is_Some (doc !! j) → is_Some (document wb !! j))
            ∧ trace wb = running_tick N ∧ listeners wb = listeners wa).
  { intros wa Ed Et Etr Eg Es. cbv zeta.
    rewrite run_otp_toplevel by (rewrite ?Ed, ?Eg; first [done | lia]).
    cbn [document sessionStorage timeouts exposed listeners trace globals].
    rewrite Ed, Et, Etr, Eg, HN. repeat split; try done; try by apply is_Some_alter.
    intros j. apply is_Some_alter. }
  assert (Hd : ∀ wb : world Otp.vars,
            ticking (N - 1) wb → (∀ j, is_Some (doc !! j) → is_Some (document wb !! j)) →
            trace wb = running_tick N →
            let wc := run Global.on_DOMContentLoaded wb in
            ticking (N - 1) wc ∧ (∀ j, is_Some (doc !! j) → is_Some (document wc !! j))
            ∧ ∃ dcl, trace wc = running_tick N ++ dcl ∧ (dcl = [] ∨ dcl = overlay_shown)).
  { intros wb (T1 & T2 & T3 & T4) Es Etr.
    destruct (run_on_DOMContentLoaded wb) as (D1 & D2 & D3 & D4 & D5 & D6 & D7).
    cbv zeta. repeat split; try congruence; try by apply D6.
    { intros j Hj. by apply D6, Es. }
    destruct D7 as [(_ & _ & Ht & _) | (_ & ->)].
    - exists overlay_shown. rewrite Ht, Etr. eauto.
    - exists []. rewrite app_nil_r. eauto. }
  rewrite !elem_of_cons, elem_of_nil in Horder.
  destruct Horder as [-> | [-> | [-> | []]]]; unfold run_scripts; cbn [foldl toplevel_of].
  - change (page_toplevel Otp.the_page) with Otp.toplevel.
    destruct (Hw w) as (T & Es & Etr & El); try done.
    unfold dispatch_DOMContentLoaded. rewrite El. cbn [listeners w foldl].
    split; [done|]. split; [done|]. exists []. rewrite app_nil_r. eauto.
  - change (page_toplevel Otp.the_page) with Otp.toplevel.
    rewrite run_global_toplevel.
    match goal with |- context [run Otp.toplevel ?x] => destruct (Hw x) as (T & Es & Etr & El); try done end.
    unfold dispatch_DOMContentLoaded. rewrite El.
    cbn [listeners w foldl app listener_of]. by apply Hd.
  - change (page_toplevel Otp.the_page) with Otp.toplevel.
    destruct (Hw w) as (T & Es & Etr & El); try done.
    rewrite run_global_toplevel.
    unfold dispatch_DOMContentLoaded.
    cbn [listeners foldl app listener_of]. rewrite El. cbn [listeners w foldl app listener_of].
    match goal with |- context [run Global.on_DOMContentLoaded ?x] => destruct (Hd x) as (T' & Es' & Etr') end; done.
Qed.

(** ** The countdown, from the loading of the OTP page *)

Lemma no_expiry_running (n : Z) : List.filter is_expiry (running_tick n) = [].
Proof. reflexivity. Qed.

Lemma no_expiry_ticks (n : Z) (k : nat) : List.filter is_expiry (ticks_from n k) = [].
Proof.
  induction k as [|k IH]; [done|].
  cbn [ticks_from]. by rewrite List.filter_app, IH, no_expiry_running.
Qed.

Lemma shown_running (n : Z) (t : jsstring) :
  SetInnerText "countdown" t ∈ running_tick n → t = countdown_text n.
Proof.
  unfold running_tick. rewrite !elem_of_cons, elem_of_nil.
  intros [E | [E | [E | []]]]; congruence.
Qed.

Lemma shown_ticks (m : Z) (k : nat) (t : jsstring) :
  SetInnerText "countdown" t ∈ ticks_from m k →
  ∃ r, m - Z.of_nat k < r <= m ∧ t = countdown_text r.
Proof.
  induction k as [|k IH]; cbn [ticks_from].
  - by rewrite elem_of_nil.
  - rewrite elem_of_app. intros [H | H].
    + destruct (IH H) as (r & Hr & ->). exists r. split; [lia | done].
    + apply shown_running in H. exists (m - Z.of_nat k). split; [lia | done].
Qed.

(** The run of the countdown after the page has loaded with [N] seconds:
    the trace and the timer before and after the [N]-th firing. *)
Lemma countdown_run (N : Z) (order : list script)
    (doc : gmap string element) (store : gmap string jsstring) (q : query) :
  1 <= N →
  parseInt (searchParams_get q (js "t")) = Some N →
  order ∈ page_orders →
  is_Some (doc !! "circle") → is_Some (doc !! "countdown") → is_Some (doc !! "status") →
  let w0 := load Otp.the_page order doc store (Otp.init_vars q) in
  let after (k : nat) := Nat.iter k fire w0 in
  let n := Z.to_nat N in
  ∃ dcl,
    (dcl = [] ∨ dcl = overlay_shown)
    ∧ (∀ k : nat, (k < n)%nat →
         ticking (N - 1 - Z.of_nat k) (after k)
         ∧ trace (after k) = running_tick N ++ dcl ++ ticks_from (N - 1) k)
    ∧ timeouts (after n) = []
    ∧ trace (after n)
      = running_tick N ++ dcl ++ ticks_from (N - 1) (n - 1)%nat ++ last_tick 0
    ∧ shows_expired (after n)
    ∧ (∀ j, is_Some (doc !! j) → is_Some (document (after n) !! j)).
Proof.
  intros HN Hq Horder Hci Hc Hs w0 after n.
  assert (Hg : Otp.timeLeft (Otp.init_vars q) = N).
  { unfold Otp.init_vars. cbn [Otp.timeLeft]. rewrite Hq. unfold or_num.
    destruct (Z.eqb_spec N 0); [lia | done]. }
  destruct (load_otp N order doc store _ Hg HN Horder Hci Hc Hs)
    as (T0 & K0 & dcl & Htr0 & Hdcl).
  fold w0 in T0, Htr0, K0. exists dcl. split; [done|].
  assert (Hbefore : ∀ k : nat, (k < n)%nat →
            ticking (N - 1 - Z.of_nat k) (after k)
            ∧ trace (after k) = running_tick N ++ dcl ++ ticks_from (N - 1) k
            ∧ elements_kept w0 (after k)).
  { intros k Hk. destruct (iter_fire_ticking k (N - 1) w0 T0) as (T & Etr & K); [lia|].
    split; [done|]. split; [|done]. unfold after. by rewrite Etr, Htr0, <- app_assoc. }
  destruct (Hbefore (n - 1)%nat) as (Tl & Etrl & Kl); [lia|].
  replace (N - 1 - Z.of_nat (n - 1)) with 0 in Tl by lia.
  destruct (fire_last _ Tl) as (L1 & L2 & L3 & L4 & L5 & L6).
  assert (Eafter : after n = fire (after (n - 1)%nat)).
  { unfold after. rewrite <- Nat.iter_succ. f_equal. lia. }
  split; [|split; [|split; [|split]]].
  - intros k Hk. destruct (Hbefore k Hk) as (T & Etr & _). done.
  - by rewrite Eafter.
  - rewrite Eafter, L3, Etrl. by rewrite <- !app_assoc.
  - unfold shows_expired. by rewrite Eafter.
  - intros j Hj. rewrite Eafter. by apply L6, Kl, K0.
Qed.

(** Events other than the timer leave the timer as it is. *)
Lemma other_events_keep_timer (ev : otp_event) (w : world Otp.vars) :
  is_fire ev = false →
  timeouts (otp_step ev w) = timeouts w
  ∧ globals (otp_step ev w) = globals w
  ∧ dom (document (otp_step ev w)) = dom (document w).
Proof.
  destruct ev as [|typed|name args]; [done| |]; intros _; cbn [otp_step].
  - destruct (timer_run _ (type_into "otp" typed w) timer_submitOtp) as (T & Gl & D).
    rewrite T, Gl, D. repeat split. cbn. apply dom_alter_L.
  - unfold push. destruct (exposed w !! name) as [[]|]; [| |done]; cbn [function_of].
    + apply timer_run, timer_global_function.
    + apply timer_run, timer_otp_function.
Qed.

Lemma other_events_keep_ticking (ev : otp_event) (n : Z) (w : world Otp.vars) :
  is_fire ev = false → ticking n w → ticking n (otp_step ev w).
Proof.
  intros Hev (Hn & Ht & Hc & Hs).
  destruct (other_events_keep_timer ev w Hev) as (T & Gl & D).
  unfold ticking. rewrite T, Gl, <- !elem_of_dom, D, !elem_of_dom. done.
Qed.

Lemma ticks_from_front (n : Z) (k : nat) :
  ticks_from n (S k) = running_tick n ++ ticks_from (n - 1) k.
Proof.
  induction k as [|k IH].
  - cbn. by rewrite Z.sub_0_r.
  - change (ticks_from n (S (S k)))
      with (ticks_from n (S k) ++ running_tick (n - Z.of_nat (S k))).
    rewrite IH. cbn [ticks_from]. rewrite <- app_assoc. do 3 f_equal. lia.
Qed.

Lemma added_same {G} (w : world G) : added w w = [].
Proof. unfold added. by rewrite drop_all. Qed.

(** Once no timeout is pending, none ever is again and the timer adds
    nothing. *)
Lemma otp_run_stopped (evs : list otp_event) (w : world Otp.vars) :
  timeouts w = [] →
  timeouts (otp_run evs w) = [] ∧ timer_effects evs w = [].
Proof.
  revert w. induction evs as [|ev evs IH]; intros w Ht; [done|].
  unfold otp_run. cbn [foldl timer_effects]. fold (otp_run evs (otp_step ev w)).
  destruct ev as [|typed|name args].
  - cbn [otp_step]. rewrite fire_idle, added_same by done. by apply IH.
  - destruct (other_events_keep_timer (CodeSubmitted typed) w) as (T & _); [done|].
    apply IH. by rewrite T.
  - destruct (other_events_keep_timer (Pushed name args) w) as (T & _); [done|].
    apply IH. by rewrite T.
Qed.

(** A run from a state with [m] seconds left to show and a tick pending:
    the timer and what its ticks add, before and after running out. *)
Lemma otp_run_ticking (evs : list otp_event) (m : nat) (w : world Otp.vars) :
  ticking (Z.of_nat m) w →
  ((firings evs ≤ m)%nat →
     ticking (Z.of_nat m - Z.of_nat (firings evs)) (otp_run evs w)
     ∧ timer_effects evs w = ticks_from (Z.of_nat m) (firings evs))
  ∧ ((m < firings evs)%nat →
     timeouts (otp_run evs w) = []
     ∧ timer_effects evs w = ticks_from (Z.of_nat m) m ++ last_tick 0).
Proof.
  revert m w. induction evs as [|ev evs IH]; intros m w Hw.
  { split; [|cbn; lia]. intros _. cbn. by rewrite Z.sub_0_r. }
  unfold otp_run. cbn [foldl timer_effects]. fold (otp_run evs (otp_step ev w)).
  destruct (is_fire ev) eqn:Hev.
  - destruct ev; try discriminate Hev. cbn [otp_step].
    change (firings (TimerFires :: evs)) with (S (firings evs)).
    destruct m as [|m].
    + destruct (fire_last w Hw) as (L1 & _ & L3 & _).
      destruct (otp_run_stopped evs (fire w) L1) as (S1 & S2).
      split; [lia|]. intros _. split; [done|].
      rewrite S2, app_nil_r. cbn [ticks_from app]. by apply added_app.
    + destruct (fire_ticking _ w Hw) as (F1 & F2 & _); [lia|].
      replace (Z.of_nat (S m) - 1) with (Z.of_nat m) in F1 by lia.
      destruct (IH m (fire w) F1) as (IH1 & IH2).
      rewrite (added_app _ _ _ F2). split.
      * intros Hk. destruct IH1 as (T & E); [lia|]. split.
        -- replace (Z.of_nat (S m) - Z.of_nat (S (firings evs)))
             with (Z.of_nat m - Z.of_nat (firings evs)) by lia. done.
        -- rewrite E, ticks_from_front. do 2 f_equal. lia.
      * intros Hk. destruct IH2 as (T & E); [lia|]. split; [done|].
        rewrite E, ticks_from_front, <- app_assoc. do 3 f_equal. lia.
  - assert (Hf : firings (ev :: evs) = firings evs).
    { unfold firings. cbn [List.filter]. by rewrite Hev. }
    rewrite Hf.
    assert (E : match ev with TimerFires => added w (fire w) | _ => [] end = []).
    { by destruct ev. }
    rewrite E. cbn [app].
    apply IH. by apply other_events_keep_ticking.
Qed.

(** C3. The OTP page is loaded with a seed [N >= 1] in its URL, at most
    2^53, the range in which the script's counter is exact; then
    timeouts fire, codes are submitted and the backend pushes, in any
    order, without a success push (which would replace the page). The
    first tick runs with the script. While fewer than [N] timeouts have
    fired a tick is pending and the ticks have written no expiry. From the
    [N]-th firing on no timeout is pending, the ticks have written the
    expiry message exactly once, and a further firing changes nothing.
    Every number that a tick gave to the countdown element lies between 0
    and [N]. *)
Theorem countdown_expires_exactly_once (N : Z) (order : list script)
    (doc : gmap string element) (store : gmap string jsstring) (q : query)
    (evs : list otp_event) :
  1 <= N <= 2 ^ 53 →
  parseInt (searchParams_get q (js "t")) = Some N →
  order ∈ page_orders →
  is_Some (doc !! "circle") → is_Some (doc !! "countdown") → is_Some (doc !! "status") →
  Forall (λ ev, is_success ev = false) evs →
  let w0 := load Otp.the_page order doc store (Otp.init_vars q) in
  let w := otp_run evs w0 in
  let ticks := timer_effects evs w0 in
  let n := Z.to_nat N in
  ((firings evs < n)%nat →
     timeouts w = [("tick", [])] ∧ List.filter is_expiry ticks = [])
  ∧ ((n ≤ firings evs)%nat →
     timeouts w = []
     ∧ List.filter is_expiry ticks = [SetInnerText "status" expired_text]
     ∧ fire w = w)
  ∧ (∀ t, SetInnerText "countdown" t ∈ trace w0 ++ ticks →
          ∃ r, 0 <= r <= N ∧ t = countdown_text r).
Proof.
  intros [HN _] Hq Horder Hci Hc Hs _ w0 w ticks n.
  assert (Hg : Otp.timeLeft (Otp.init_vars q) = N).
  { unfold Otp.init_vars. cbn [Otp.timeLeft]. rewrite Hq. unfold or_num.
    destruct (Z.eqb_spec N 0); [lia | done]. }
  destruct (load_otp N order doc store _ Hg HN Horder Hci Hc Hs)
    as (T0 & _ & dcl & Htr0 & Hdcl).
  fold w0 in T0, Htr0.
  assert (Hm : N - 1 = Z.of_nat (n - 1)) by lia.
  rewrite Hm in T0.
  destruct (otp_run_ticking evs (n - 1) w0 T0) as (Hbefore & Hafter).
  fold w ticks in Hbefore, Hafter.
  assert (Hdcl_s : ∀ t, SetInnerText "countdown" t ∉ dcl).
  { intros t. destruct Hdcl as [-> | ->]; [apply not_elem_of_nil|].
    unfold overlay_shown. rewrite list_elem_of_singleton. congruence. }
  split; [|split].
  - intros Hk. destruct Hbefore as ((_ & Ht & _) & E); [lia|].
    split; [done|]. rewrite E. apply no_expiry_ticks.
  - intros Hk. destruct Hafter as (Ht & E); [lia|].
    split; [done|]. split; [|by apply fire_idle].
    rewrite E, List.filter_app, no_expiry_ticks. done.
  - intros t. rewrite Htr0, <- app_assoc, !elem_of_app. intros [H | [H | H]].
    + apply shown_running in H. exists N. split; [lia | done].
    + by apply Hdcl_s in H.
    + destruct (decide (firings evs ≤ n - 1)%nat) as [Hk | Hk].
      * destruct Hbefore as (_ & E); [done|]. rewrite E in H.
        apply shown_ticks in H as (r & Hr & ->). exists r. split; [lia | done].
      * destruct Hafter as (_ & E); [lia|]. rewrite E, elem_of_app in H.
        destruct H as [H | H].
        -- apply shown_ticks in H as (r & Hr & ->). exists r. split; [lia | done].
        -- exists 0. split; [lia|]. unfold last_tick in H.
           rewrite !elem_of_cons, elem_of_nil in H.
           destruct H as [E' | [E' | [E' | []]]]; congruence.
Qed.

(** ** Submitting a code *)

Lemma submitOtp_effects (w : world Otp.vars) (typed : jsstring) :
  is_Some (document w !! "otp") →
  is_Some (document w !! "status") →
  let w0 := type_into "otp" typed w in
  added w0 (run Otp.submitOtp w0) =
  if decide (length (trim typed) = 6%nat) then
    [SetInnerText "status" (js "Verifying...");
     EelCall "verify_otp" [val_of_string (Otp.username (globals w)); VStr (trim typed)]]
  else [SetInnerText "status" (warning_sign ++ js " Enter 6 digits")].
Proof.
  intros [eo Ho] [es Hs] w0.
  assert (Ho0 : document w0 !! "otp"
                = Some (Element typed (el_innerText eo) (el_innerHTML eo) (el_display eo))).
  { unfold w0. rewrite document_type_into. case_decide; [|done]. by rewrite Ho. }
  assert (Hs0 : document w0 !! "status" = Some es).
  { unfold w0. rewrite document_type_into. by case_decide. }
  assert (Hg : globals w0 = globals w) by done.
  clearbody w0. unfold run, Otp.submitOtp, eel_call. do 2 eff_step. cbn [el_value].
  destruct (decide (length (trim typed) = 6%nat)) as [E | E].
  - assert (B : bool_decide (trim typed = []) || negb (length (trim typed) =? 6)%nat = false).
    { rewrite E. cbn. destruct (trim typed); [done|]. by rewrite bool_decide_eq_false_2. }
    rewrite B. do 3 eff_step. eff_prim.
    erewrite added_app; [|cbn [trace]; rewrite <- app_assoc; reflexivity].
    by rewrite Hg.
  - assert (B : bool_decide (trim typed = []) || negb (length (trim typed) =? 6)%nat = true).
    { apply orb_true_iff. right. apply negb_true_iff. by apply Nat.eqb_neq. }
    rewrite B. eff_step. eff_prim.
    erewrite added_app; [|cbn [trace]; reflexivity]. done.
Qed.

(** C7, as the code has it. The length that [submitOtp] checks is the
    length of the trimmed input: when it is not 6 the validation message is
    set and nothing is called; when it is 6 the backend's [verify_otp] is
    called exactly once, with the trimmed code. *)
Theorem submitOtp_checks_trimmed_length (w : world Otp.vars) (typed : jsstring) :
  is_Some (document w !! "otp") →
  is_Some (document w !! "status") →
  let w0 := type_into "otp" typed w in
  let new := added w0 (run Otp.submitOtp w0) in
  (length (trim typed) ≠ 6%nat →
     new = [SetInnerText "status" (warning_sign ++ js " Enter 6 digits")]
     ∧ calls new = [])
  ∧ (length (trim typed) = 6%nat →
     new = [SetInnerText "status" (js "Verifying...");
            EelCall "verify_otp" [val_of_string (Otp.username (globals w));
                                  VStr (trim typed)]]
     ∧ length (calls new) = 1%nat).
Proof.
  intros Ho Hs w0 new. unfold new, w0. rewrite submitOtp_effects by done.
  split; intros E; case_decide; done.
Qed.

(** C7 as stated fails: a code typed with a trailing space has 7
    characters and is sent; five digits and a space are 6 characters and
    are not sent. *)
Lemma submitOtp_raw_length_counterexample :
  (length (js "123456 ") ≠ 6%nat
   ∧ calls (added (type_into "otp" (js "123456 ") (otp_loaded "60"))
                  (run Otp.submitOtp (type_into "otp" (js "123456 ") (otp_loaded "60"))))
     = [EelCall "verify_otp" [VStr (js "alice"); VStr (js "123456")]])
  ∧ (length (js "12345 ") = 6%nat
     ∧ calls (added (type_into "otp" (js "12345 ") (otp_loaded "60"))
                    (run Otp.submitOtp (type_into "otp" (js "12345 ") (otp_loaded "60"))))
       = []).
Proof. split; (split; [vm_compute; lia | vm_compute; reflexivity]). Qed.

(** C5, as the code has it. Once the countdown of [N] seconds has run out
    and the page shows the expiry, [submitOtp] does what it did before: a
    code of 6 characters after trimming is sent to the backend, in exactly
    one request. *)
Theorem submitOtp_after_expiry_still_calls (N : Z) (order : list script)
    (doc : gmap string element) (store : gmap string jsstring) (q : query)
    (typed : jsstring) :
  1 <= N →
  parseInt (searchParams_get q (js "t")) = Some N →
  order ∈ page_orders →
  is_Some (doc !! "circle") → is_Some (doc !! "countdown") →
  is_Some (doc !! "status") → is_Some (doc !! "otp") →
  length (trim typed) = 6%nat →
  let w := Nat.iter (Z.to_nat N) fire (load Otp.the_page order doc store (Otp.init_vars q)) in
  let w1 := type_into "otp" typed w in
  shows_expired w
  ∧ timeouts w = []
  ∧ calls (added w1 (run Otp.submitOtp w1))
    = [EelCall "verify_otp" [val_of_string (Otp.username (globals w)); VStr (trim typed)]].
Proof.
  intros HN Hq Horder Hci Hc Hs Ho Hlen w w1.
  destruct (countdown_run N order doc store q HN Hq Horder Hci Hc Hs)
    as (dcl & _ & _ & Htn & _ & Hexp & Hkept).
  split; [done|]. split; [done|].
  unfold w1. rewrite submitOtp_effects by (by apply Hkept).
  case_decide; done.
Qed.

(** C5 as stated fails: the page loaded with a seed of one second has
    expired after one firing of the timer, and a code submitted then is
    still sent for verification. *)
Lemma submit_after_expiry_counterexample :
  shows_expired (fire (otp_loaded "1"))
  ∧ timeouts (fire (otp_loaded "1")) = []
  ∧ calls (added (type_into "otp" (js "123456") (fire (otp_loaded "1")))
                 (run Otp.submitOtp (type_into "otp" (js "123456") (fire (otp_loaded "1")))))
    = [EelCall "verify_otp" [VStr (js "alice"); VStr (js "123456")]].
Proof. repeat split; vm_compute; reflexivity. Qed.

(** ** The progress arc *)

(** [draw] strokes the arc of [timeLeft / 60] turns, whatever the seed
    was. *)
Lemma draw_strokes_sixtieths (w : world Otp.vars) :
  trace (run Otp.draw w)
  = trace w ++ [DrawArc (inject_Z (Otp.timeLeft (globals w)) / 60)].
Proof. unfold run, Otp.draw. eff_step. eff_prim. done. Qed.








(** ** The seed of the countdown *)

Lemma parse_digits_from (radix a : N) (s : jsstring) :
  is_Some (parse_digits radix (Some a) s).
Proof.
  revert a. induction s as [|c s IH]; intros a; cbn [parse_digits]; [done|].
  destruct (digit_value radix c); [apply IH | done].
Qed.

Lemma parse_digits_nothing (radix : N) (s : jsstring) :
  parse_digits radix None s = None
  ↔ match s with c :: _ => digit_value radix c = None | [] => True end.
Proof.
  destruct s as [|c s]; cbn [parse_digits]; [done|].
  destruct (digit_value radix c) as [d|]; [|done].
  destruct (parse_digits_from radix (default 0 None * radix + d)%N s) as [n ->].
  split; intros H; discriminate H.
Qed.

(** [parseInt] gives [NaN] on the texts without a leading number, and on
    no other. *)
Lemma parseInt_nothing (s : jsstring) :
  parseInt (Some s) = None ↔ no_leading_number s = true.
Proof.
  unfold parseInt, no_leading_number, show_string.
  destruct (split_sign (trimStart s)) as [sign r]. cbn [snd].
  destruct (split_radix r) as [radix d].
  pose proof (parse_digits_nothing radix d) as H.
  destruct (parse_digits radix None d) as [n|].
  - split; [done|]. intros E. exfalso.
    assert (Hn : Some n = None); [|discriminate Hn].
    apply H. destruct d as [|c d']; [done|]. by apply bool_decide_eq_true in E.
  - split; [|done]. intros _. destruct d as [|c d']; [done|].
    apply bool_decide_eq_true. by apply H.
Qed.

(** C10, as the code has it. When the parameter [t] of the URL is
    absent, or is a text in which [parseInt] finds no number (no digit
    after the white space and the sign, or none after 0x), or is read as 0
    by [parseInt], the countdown starts from 60: the page, once loaded,
    shows 60 seconds, has a tick pending and has not expired. The texts
    without a leading number are exactly those [parseInt] reads as [NaN].
    The seed 0 that the backend passes to [redirect_otp] reaches the OTP
    page as the text "0", which is such a parameter. *)
Theorem seed_defaults_to_60 (order : list script) (doc : gmap string element)
    (store : gmap string jsstring) (q : query) :
  searchParams_get q (js "t") = None
  ∨ (∃ s, searchParams_get q (js "t") = Some s ∧ no_leading_number s = true)
  ∨ parseInt (searchParams_get q (js "t")) = Some 0 →
  order ∈ page_orders →
  is_Some (doc !! "circle") → is_Some (doc !! "countdown") → is_Some (doc !! "status") →
  let w0 := load Otp.the_page order doc store (Otp.init_vars q) in
  Otp.timeLeft (Otp.init_vars q) = 60
  ∧ SetInnerText "countdown" (countdown_text 60) ∈ trace w0
  ∧ timeouts w0 = [("tick", [])]
  ∧ List.filter is_expiry (trace w0) = []
  ∧ (∀ s, no_leading_number s = true ↔ parseInt (Some s) = None)
  ∧ (∀ (w : world unit) user status,
       added w (run (Login.redirect_otp user status (VNum 0)) w)
       = [Navigate (js "otp.html?user=" ++ show_val user ++ js "&status="
                    ++ show_val status ++ js "&t=" ++ js "0")])
  ∧ parseInt (Some (js "0")) = Some 0.
Proof.
  intros Ht Horder Hci Hc Hs w0.
  assert (Hg : Otp.timeLeft (Otp.init_vars q) = 60).
  { unfold Otp.init_vars. cbn [Otp.timeLeft].
    destruct Ht as [-> | [(s & -> & Hs') | ->]]; [done | | done].
    apply parseInt_nothing in Hs'. by rewrite Hs'. }
  destruct (load_otp 60 order doc store _ Hg ltac:(lia) Horder Hci Hc Hs)
    as ((_ & Hto & _) & _ & dcl & Htr & Hdcl).
  fold w0 in Hto, Htr.
  split; [done|]. split; [|split; [done|split; [|split; [|split; [|done]]]]].
  - rewrite Htr. apply elem_of_app. left. unfold running_tick.
    apply elem_of_cons. right. apply elem_of_cons. by left.
  - rewrite Htr, List.filter_app. by destruct Hdcl as [-> | ->].
  - intros s. by rewrite parseInt_nothing.
  - intros w user status. unfold run, Login.redirect_otp, navigate. eff_prim.
    by apply added_app.
Qed.

(** C10 as stated fails. The parameter 12abc is not a number, yet
    [parseInt] reads the number in front of it and the countdown starts
    from 12 seconds. The parameter 0x, with nothing after the prefix, is a
    text without a leading number and starts the countdown from 60. *)
Lemma numeric_prefix_counterexample :
  forallb is_digit (js "12abc") = false
  ∧ no_leading_number (js "12abc") = false
  ∧ Otp.timeLeft (Otp.init_vars (otp_query "12abc")) = 12
  ∧ trace (otp_loaded "12abc") !! 1%nat
    = Some (SetInnerText "countdown" (countdown_text 12))
  ∧ no_leading_number (js "0x") = true
  ∧ Otp.timeLeft (Otp.init_vars (otp_query "0x")) = 60.
Proof. repeat split; vm_compute; reflexivity. Qed.

(** ** The menu *)

Lemma lower_unit_same_letter (c l : N) :
  ¬ (65 <= l <= 90)%N → lower_unit c = l ↔ same_letter c l.
Proof.
  intros Hl. unfold lower_unit, same_letter.
  destruct ((65 <=? c) && (c <=? 90))%N eqn:U.
  - apply andb_true_iff in U as [U1 U2]. apply N.leb_le in U1, U2. split.
    + intros <-. right. done.
    + intros [-> | [_ <-]]; [lia | done].
  - split; [by left|]. intros [-> | [[U1 U2] _]]; [done|].
    apply N.leb_le in U1, U2. rewrite U1, U2 in U. discriminate U.
Qed.

Lemma toLowerCase_spells (word s : jsstring) :
  Forall (λ l, ¬ (65 <= l <= 90)%N) word →
  toLowerCase s = word ↔ spells word s.
Proof.
  unfold spells, toLowerCase. intros Hw. revert s.
  induction Hw as [|l word Hl Hw IH]; intros [|c s]; cbn [fmap list_fmap].
  - split; [constructor | done].
  - split; [done | intros H; inversion H].
  - split; [done | intros H; inversion H].
  - split.
    + intros [= E1 E2]. constructor; [by apply lower_unit_same_letter | by apply IH].
    + intros H. inversion H; subst. f_equal; [by apply lower_unit_same_letter | by apply IH].
Qed.

Lemma staff_is_lower_case : Forall (λ l, ¬ (65 <= l <= 90)%N) (js "staff").
Proof. repeat constructor; vm_compute; intros [H1 H2]; done. Qed.

Lemma customer_is_not_staff : ¬ spells (js "staff") (js "customer").
Proof.
  rewrite <- toLowerCase_spells by apply staff_is_lower_case.
  vm_compute. discriminate.
Qed.

Lemma run_menu_toplevel (w : world MainMenu.vars) :
  is_Some (document w !! "menu") →
  let g := globals w in
  let w' := run MainMenu.toplevel w in
  el_innerHTML <$> document w' !! "menu"
  = Some (MainMenu.header g
          ++ MainMenu.buttons_html
               (if decide (MainMenu.status g = js "staff") then MainMenu.staff_buttons
                else MainMenu.customer_buttons))
  ∧ added w w'
    = [SetInnerHTML "menu" (MainMenu.header g);
       SetInnerHTML "menu"
         (MainMenu.header g
          ++ MainMenu.buttons_html
               (if decide (MainMenu.status g = js "staff") then MainMenu.staff_buttons
                else MainMenu.customer_buttons))].
Proof.
  intros [em Hm] g w'. subst w' g. unfold run, MainMenu.toplevel.
  do 3 eff_step. rewrite bind_eq.
  assert (L : ∀ (t : jsstring) (tr : list effect),
            get_innerHTML (Some "menu")
              (World (alter (λ e, Element (el_value e) (el_innerText e) t (el_display e))
                            "menu" (document w))
                     (sessionStorage w) (timeouts w) (exposed w) (listeners w) tr (globals w))
            = (Return t, World (alter (λ e, Element (el_value e) (el_innerText e) t (el_display e))
                            "menu" (document w))
                     (sessionStorage w) (timeouts w) (exposed w) (listeners w) tr (globals w))).
  { intros t tr. unfold get_innerHTML, get_prop. cbn [document].
    rewrite lookup_alter. case_decide; [|done]. by rewrite Hm. }
  destruct (decide (MainMenu.status (globals w) = js "staff")) as [E | E].
  - rewrite bind_eq, L. cbv beta iota. eff_prim. eff_step. eff_prim. cbn [document]. split.
    + rewrite !lookup_alter. case_decide; [|done]. by rewrite Hm.
    + erewrite added_app; [|cbn [trace]; rewrite <- app_assoc; reflexivity]. done.
  - rewrite bind_eq, L. cbv beta iota. eff_prim. eff_step. eff_prim. cbn [document]. split.
    + rewrite !lookup_alter. case_decide; [|done]. by rewrite Hm.
    + erewrite added_app; [|cbn [trace]; rewrite <- app_assoc; reflexivity]. done.
Qed.

Lemma split_on_free (d : N) (a b : jsstring) :
  Forall (λ c, c ≠ d) a → split_on d (a ++ d :: b) = a :: split_on d b.
Proof.
  induction 1 as [|c s Hc _ IH]; cbn [split_on app].
  - by rewrite N.eqb_refl.
  - destruct (N.eqb_spec c d); [done|]. by rewrite IH.
Qed.

(** The heading of the menu holds no button when the user name is text. *)
Lemma buttons_of_header (u rest : jsstring) :
  Forall (λ c, is_text_unit c = true) u →
  buttons_of (js "<h1 style=" ++ dq ++ js "color:#e7fdfd;" ++ dq ++ js ">Welcome, "
              ++ u ++ js "</h1>" ++ rest)
  = omap button_of (split_on 60 (js "/h1>" ++ rest)).
Proof.
  intros Hu.
  set (a := js "h1 style=" ++ dq ++ js "color:#e7fdfd;" ++ dq ++ js ">Welcome, ").
  assert (E : js "<h1 style=" ++ dq ++ js "color:#e7fdfd;" ++ dq ++ js ">Welcome, "
              ++ u ++ js "</h1>" ++ rest
              = 60%N :: (a ++ u) ++ 60%N :: js "/h1>" ++ rest).
  { rewrite <- app_assoc. reflexivity. }
  rewrite E. unfold buttons_of. cbn [split_on]. rewrite N.eqb_refl. cbn [tail].
  rewrite split_on_free.
  - cbn [omap list_omap]. by replace (button_of (a ++ u)) with (@None (jsstring * jsstring)).
  - apply Forall_app. split.
    + subst a. repeat (constructor; [by vm_compute|]). constructor.
    + eapply Forall_impl; [exact Hu|]. intros c Hc. unfold is_text_unit in Hc.
      rewrite !andb_true_iff, negb_true_iff, !orb_false_iff, !N.eqb_neq in Hc. tauto.
Qed.

(** C9, as the code has it. The carried role is compared with "staff"
    after lower-casing, so it selects the staff menu exactly when it spells
    staff in any mix of upper and lower case. For a user name that is
    text, without a character of markup, the menu then holds the two
    maintenance buttons and logout and no other button, none for balance,
    withdrawal or deposit. Every other carried value, the absent and the
    empty one included, gives the customer panel with the balance,
    withdraw, deposit and logout buttons and no other. *)
Theorem menu_follows_lowercased_role (w : world MainMenu.vars) (q : query) :
  is_Some (document w !! "menu") →
  globals w = MainMenu.init_vars q →
  Forall (λ c, is_text_unit c = true) (show_string (MainMenu.user (globals w))) →
  let carried := searchParams_get q (js "status") in
  let html := el_innerHTML <$> document (run MainMenu.toplevel w) !! "menu" in
  ((∃ s, carried = Some s ∧ spells (js "staff") s) →
     html = Some (MainMenu.header (globals w)
                  ++ MainMenu.buttons_html MainMenu.staff_buttons)
     ∧ MainMenu.subtitle (MainMenu.status (globals w)) = js "Staff Access Panel"
     ∧ buttons_of <$> html
       = Some (menu_button
                 <$> [(Some "eel.toggle_maintenance(true)()", "Enable Maintenance");
                      (Some "eel.toggle_maintenance(false)()", "Disable Maintenance");
                      (Some "logout()", "Logout")]))
  ∧ (¬ (∃ s, carried = Some s ∧ spells (js "staff") s) →
     html = Some (MainMenu.header (globals w)
                  ++ MainMenu.buttons_html MainMenu.customer_buttons)
     ∧ MainMenu.subtitle (MainMenu.status (globals w)) = js "Customer Access Panel"
     ∧ buttons_of <$> html
       = Some (menu_button
                 <$> [(Some "checkBalance()", "Check Balance");
                      (None, "Withdraw");
                      (None, "Deposit");
                      (Some "logout()", "Logout")])).
Proof.
  intros Hm Hg Hu carried html.
  destruct (run_menu_toplevel w Hm) as [Hhtml _]. cbv zeta in Hhtml.
  assert (Hst : MainMenu.status (globals w) = js "staff"
                ↔ ∃ s, carried = Some s ∧ spells (js "staff") s).
  { rewrite Hg. unfold MainMenu.init_vars. cbn [MainMenu.status]. fold carried.
    rewrite toLowerCase_spells by apply staff_is_lower_case.
    split.
    - intros H. destruct carried as [[|c s]|]; cbn [or_string] in H;
        [by apply customer_is_not_staff in H | eauto | by apply customer_is_not_staff in H].
    - intros (s & -> & H). destruct s; [inversion H | done]. }
  unfold html. rewrite Hhtml. unfold MainMenu.subtitle. cbn [fmap option_fmap option_map].
  split.
  - intros H. apply Hst in H. rewrite !decide_True by done.
    split; [done|]. split; [done|]. f_equal.
    unfold MainMenu.header, MainMenu.subtitle. rewrite decide_True by done.
    rewrite <- !app_assoc. rewrite buttons_of_header by done.
    vm_compute. reflexivity.
  - intros H. rewrite !decide_False by (by rewrite Hst).
    split; [done|]. split; [done|]. f_equal.
    unfold MainMenu.header, MainMenu.subtitle. rewrite decide_False by (by rewrite Hst).
    rewrite <- !app_assoc. rewrite buttons_of_header by done.
    vm_compute. reflexivity.
Qed.

(** C9 as stated fails. The carried value STAFF is not the value staff,
    yet the page shows the staff panel and the staff menu, not the customer
    one. And the name of the user is written into the markup as it is: a
    staff session whose user name is the markup of a button has that
    button, here the one for the balance, in front of the staff menu. *)
Lemma staff_menu_counterexample :
  js "STAFF" ≠ js "staff"
  ∧ el_innerHTML <$> document (load MainMenu.the_page [GlobalJs; PageJs] menu_doc ∅
                                 (MainMenu.init_vars (menu_query "alice" "STAFF")))
                     !! "menu"
    = Some (MainMenu.header (MainMenu.Vars (Some (js "alice")) (js "staff"))
            ++ MainMenu.buttons_html MainMenu.staff_buttons)
  ∧ MainMenu.buttons_html MainMenu.staff_buttons
    ≠ MainMenu.buttons_html MainMenu.customer_buttons
  ∧ (el_innerHTML
       <$> document (load MainMenu.the_page [GlobalJs; PageJs] menu_doc ∅
                       (MainMenu.init_vars
                          [(js "user", MainMenu.button (Some "checkBalance()", "Check Balance"));
                           (js "status", js "staff")]))
           !! "menu")
    ≫= (λ html, head (buttons_of html))
    = Some (menu_button (Some "checkBalance()", "Check Balance")).
Proof.
  split; [vm_compute; discriminate|]. split; [vm_compute; reflexivity|].
  split; [vm_compute; discriminate|]. vm_compute. reflexivity.
Qed.

(** ** Decimal digits *)

Lemma digits_go_acc (fuel : nat) (n : N) (acc : jsstring) :
  digits_go fuel n acc = digits_go fuel n [] ++ acc.
Proof.
  revert n acc. induction fuel as [|fuel IH]; intros n acc; [done|].
  cbn [digits_go]. destruct (n / 10 =? 0)%N; [done|].
  rewrite IH, (IH _ [_]). by rewrite <- app_assoc.
Qed.

Lemma log2_div10 (n : N) : (n / 10 ≠ 0 → N.log2 (n / 10) < N.log2 n)%N.
Proof.
  intros H.
  assert (H2 : (2 * (n / 10) <= n)%N).
  { pose proof (N.Div0.mul_div_le n 10). lia. }
  apply N.log2_le_mono in H2. rewrite N.log2_double in H2 by by apply N.neq_0_lt_0.
  by apply N.le_succ_l.
Qed.

Lemma digits_go_fuel (f1 f2 : nat) (n : N) (acc : jsstring) :
  (N.to_nat (N.log2 n) < f1)%nat → (N.to_nat (N.log2 n) < f2)%nat →
  digits_go f1 n acc = digits_go f2 n acc.
Proof.
  revert f2 n acc. induction f1 as [|f1 IH]; intros [|f2] n acc H1 H2; try lia.
  cbn [digits_go]. destruct (N.eqb_spec (n / 10) 0) as [E | E]; [done|].
  pose proof (log2_div10 n E). apply IH; lia.
Qed.

Lemma digits_small (n : N) : (n < 10)%N → digits n = [(48 + n)%N].
Proof.
  intros H. unfold digits. cbn [digits_go].
  rewrite N.div_small, N.mod_small by done. done.
Qed.

Lemma digits_step (n : N) :
  (10 <= n)%N → digits n = digits (n / 10) ++ [(48 + n mod 10)%N].
Proof.
  intros H. unfold digits at 1. cbn [digits_go].
  assert (E : (n / 10 ≠ 0)%N).
  { intros E. apply N.div_small_iff in E; lia. }
  destruct (N.eqb_spec (n / 10) 0) as [E' | _]; [by destruct E|].
  rewrite digits_go_acc. f_equal. unfold digits.
  pose proof (log2_div10 n E). apply digits_go_fuel; lia.
Qed.

Lemma length_digits_pos (n : N) : (0 < length (digits n))%nat.
Proof.
  destruct (N.lt_ge_cases n 10) as [H | H].
  - rewrite digits_small by done. cbn. lia.
  - rewrite digits_step, length_app by done. cbn. lia.
Qed.

(** The last two digits of a number padded to three digits, and the
    digits before them. *)
Lemma pad_digits_split (n : N) :
  let m := Balance.pad_digits 3 n in
  take (length m - 2) m = digits (n / 100)
  ∧ drop (length m - 2) m = [(48 + (n / 10) mod 10)%N; (48 + n mod 10)%N].
Proof.
  unfold Balance.pad_digits.
  destruct (N.lt_ge_cases n 10) as [H1 | H1].
  { assert (E100 : (n / 100 = 0)%N) by (apply N.div_small; lia).
    assert (E10 : (n / 10 = 0)%N) by (apply N.div_small; lia).
    assert (Em : (n mod 10 = n)%N) by (apply N.mod_small; lia).
    rewrite (digits_small n H1), E100, E10, Em. done. }
  rewrite (digits_step n H1).
  destruct (N.lt_ge_cases n 100) as [H2 | H2].
  { assert (H3 : (n / 10 < 10)%N) by (apply N.Div0.div_lt_upper_bound; lia).
    assert (E100 : (n / 100 = 0)%N) by (apply N.div_small; lia).
    assert (Em : ((n / 10) mod 10 = n / 10)%N) by (apply N.mod_small; lia).
    rewrite (digits_small (n / 10) H3), E100, Em. done. }
  assert (H3 : (10 <= n / 10)%N) by (apply N.div_le_lower_bound; lia).
  rewrite (digits_step (n / 10) H3), N.Div0.div_div. change (10 * 10)%N with 100%N.
  pose proof (length_digits_pos (n / 100)) as Hpos.
  rewrite <- app_assoc. cbn [app].
  set (hd := digits (n / 100)) in *.
  set (tl := [(48 + (n / 10) mod 10)%N; (48 + n mod 10)%N]).
  assert (Hlen : length (hd ++ tl) = (length hd + 2)%nat) by by rewrite length_app.
  replace (3 - length (hd ++ tl))%nat with 0%nat by lia. cbn [replicate app].
  rewrite Hlen. replace (length hd + 2 - 2)%nat with (length hd) by lia.
  by rewrite take_app_length, drop_app_length.
Qed.

(** ** The balance page *)

Section BalancePage.
Variable parseFloat : option jsstring → jsnum.
Variable number_toString : Q → jsstring.

Lemma hundredths_nearest (x : Q) :
  (Qabs (inject_Z (Z.of_N (hundredths x)) / 100 - Qabs x) <= 1 # 200)%Q.
Proof.
  unfold hundredths. set (a := Qabs x).
  assert (Ha : (0 <= a)%Q) by apply Qabs_nonneg.
  set (y := (a * inject_Z 100 + (1 # 2))%Q).
  assert (Hy : (0 <= y)%Q).
  { unfold y. change (inject_Z 100) with (100 # 1). lra. }
  assert (Hz : 0 <= Qfloor y).
  { change 0 with (Qfloor (inject_Z 0)). by apply Qfloor_resp_le. }
  rewrite Z2N.id by done.
  pose proof (Qfloor_le y) as Hlo. pose proof (Qlt_floor y) as Hhi.
  rewrite inject_Z_plus in Hhi. change (inject_Z 1) with 1%Q in Hhi.
  apply Qabs_Qle_condition. set (z := inject_Z (Qfloor y)) in *. clearbody z.
  unfold y in Hlo, Hhi. change (inject_Z 100) with (100 # 1) in Hlo, Hhi.
  clearbody a. unfold Qdiv. change (/ 100)%Q with (1 # 100). split; lra.
Qed.

Lemma toFixed_two_decimals (x : Q) :
  (Qabs x < inject_Z (10 ^ 21))%Q →
  Balance.toFixed number_toString 2 (Finite x)
  = (if Qlt_le_dec x 0 then [45%N] else [])
    ++ digits (hundredths x / 100) ++ js "."
    ++ [(48 + (hundredths x / 10) mod 10)%N; (48 + hundredths x mod 10)%N].
Proof.
  intros Hx. unfold Balance.toFixed.
  destruct (Qlt_le_dec (Qabs x) (inject_Z (10 ^ 21))) as [_ | Hge].
  2: { exfalso. by apply (Qlt_not_le _ _ Hx). }
  change (10 ^ Z.of_nat 2) with 100. fold (hundredths x).
  change (2 + 1)%nat with 3%nat. cbv zeta.
  destruct (decide (2%nat = 0%nat)) as [E | _]; [discriminate E|].
  destruct (pad_digits_split (hundredths x)) as [-> ->]. done.
Qed.

Lemma run_balance_toplevel (w : world Balance.vars) :
  is_Some (document w !! "balance-amount") →
  let w' := run (Balance.toplevel parseFloat number_toString) w in
  added w w'
  = [SetInnerText "balance-amount"
       (Balance.balance_text parseFloat number_toString (Balance.bal (globals w)))]
  ∧ el_innerText <$> document w' !! "balance-amount"
    = Some (Balance.balance_text parseFloat number_toString (Balance.bal (globals w))).
Proof.
  intros [e He] w'. subst w'. unfold run, Balance.toplevel.
  do 3 eff_step. eff_prim. split.
  - by apply added_app.
  - cbn [document]. rewrite lookup_alter. case_decide; [|done]. by rewrite He.
Qed.

(** C8, as the code has it. What the balance page displays for the
    value carried in its URL. For the sentinel "Error" it is the message
    "Error retrieving balance". For a value that [parseFloat] reads as a
    finite number below 10^21 in magnitude it is "RM " followed by the
    sign, the digits of the whole part, a point and exactly two digits, the
    hundredths being the nearest ones. No other value is checked: what
    [parseFloat] does not read as a number, an absent parameter included,
    is shown as "RM NaN", an infinity as "RM Infinity", and a number from
    10^21 on in the notation of [Number::toString], with an exponent and
    without the two decimals. In every case the script runs to its end
    and sets the text. The main menu carries the backend's answer, the
    sentinel or a number up to 2^53, in the parameter [bal]. *)
Theorem balance_page_shows_amount_or_error (w : world Balance.vars) :
  is_Some (document w !! "balance-amount") →
  let bal := Balance.bal (globals w) in
  let w' := run (Balance.toplevel parseFloat number_toString) w in
  let shown := el_innerText <$> document w' !! "balance-amount" in
  (bal = Some (js "Error") → shown = Some (js "Error retrieving balance"))
  ∧ (∀ x, bal ≠ Some (js "Error") → parseFloat bal = Finite x →
          (Qabs x < inject_Z (10 ^ 21))%Q →
          shown = Some (js "RM " ++ (if Qlt_le_dec x 0 then [45%N] else [])
                        ++ digits (hundredths x / 100) ++ js "."
                        ++ [(48 + (hundredths x / 10) mod 10)%N;
                            (48 + hundredths x mod 10)%N])
          ∧ (Qabs (inject_Z (Z.of_N (hundredths x)) / 100 - Qabs x) <= 1 # 200)%Q)
  ∧ (bal ≠ Some (js "Error") →
       (parseFloat bal = NaN → shown = Some (js "RM NaN"))
       ∧ (∀ negative, parseFloat bal = Infinity negative →
            shown = Some (js "RM " ++ (if negative then [45%N] else []) ++ js "Infinity"))
       ∧ (∀ x, parseFloat bal = Finite x → (inject_Z (10 ^ 21) <= Qabs x)%Q →
            shown = Some (js "RM " ++ (if Qlt_le_dec x 0 then [45%N] else [])
                          ++ number_toString (Qabs x))))
  ∧ (∃ text, shown = Some text ∧ added w w' = [SetInnerText "balance-amount" text])
  ∧ (∀ (wm : world MainMenu.vars) (answer : jsval),
       exact_val answer →
       added wm (run (MainMenu.checkBalance_resumed answer) wm)
       = [Navigate (js "balance.html?user=" ++ show_string (MainMenu.user (globals wm))
                    ++ js "&status=" ++ MainMenu.status (globals wm)
                    ++ js "&bal=" ++ show_val answer)]).
Proof.
  intros He bal w' shown.
  destruct (run_balance_toplevel w He) as [Hadd Hshown].
  fold w' bal in Hadd, Hshown. fold shown in Hshown.
  split; [|split; [|split; [|split]]].
  - intros E. rewrite Hshown, E. unfold Balance.balance_text. by rewrite decide_True.
  - intros x Hne Hx Hsmall. split; [|apply hundredths_nearest].
    rewrite Hshown. unfold Balance.balance_text. rewrite decide_False by done.
    by rewrite Hx, toFixed_two_decimals.
  - intros Hne. rewrite Hshown. unfold Balance.balance_text.
    rewrite decide_False by done. split; [|split].
    + by intros ->.
    + intros negative ->. by destruct negative.
    + intros x -> Hlarge. unfold Balance.toFixed.
      destruct (Qlt_le_dec (Qabs x) (inject_Z (10 ^ 21))) as [Hlt | _]; [|done].
      exfalso. apply Qlt_not_le in Hlt. by apply Hlt.
  - eauto.
  - intros wm answer _. unfold run, MainMenu.checkBalance_resumed, navigate.
    eff_step. eff_prim. by apply added_app.
Qed.

(** C8 as stated fails. The carried amount 1e21 is shown as "RM 1e+21",
    without decimals, and a page reached without an amount in its URL
    shows "RM NaN". *)
Lemma amount_not_formatted_counterexample :
  el_innerText
    <$> document (run (Balance.toplevel parseFloat_large number_toString_large)
                      (balance_world "1e21")) !! "balance-amount"
  = Some (js "RM 1e+21")
  ∧ el_innerText
      <$> document (run (Balance.toplevel parseFloat_sample number_toString_large)
                        (World balance_doc ∅ [] ∅ [] []
                               (Balance.init_vars (menu_query "alice" "customer"))))
          !! "balance-amount"
    = Some (js "RM NaN").
Proof. split; vm_compute; reflexivity. Qed.
End BalancePage.

(** ** Lockdown *)

Lemma global_handler_sets_flag {G} (w : world G) :
  sessionStorage (run Global.trigger_emergency_mode w) !! "lockdown" = Some (js "true").
Proof.
  unfold run, Global.trigger_emergency_mode, navigate. do 2 eff_step.
  destruct (document w !! "lockscreen") as [e|] eqn:L.
  - eff_step. eff_prim. cbn [sessionStorage]. apply lookup_insert_eq.
  - eff_step. eff_prim. cbn [sessionStorage]. apply lookup_insert_eq.
Qed.

(** C1 on the page scripts' own handler. The function
    [trigger_emergency_mode] that the login, OTP, main-menu and balance
    scripts declare never writes the session storage. On the login page
    that loads [global.js] and then its own script, the page's function is
    the one the backend reaches: after the push the overlay is visible but
    the storage holds no lockdown flag, and the OTP page loaded next in the
    same session shows no overlay. The handler of [global.js] does write
    the flag. *)
Theorem page_handler_skips_lockdown_flag :
  (∀ G (w : world G),
     sessionStorage (run page_trigger_emergency_mode w) = sessionStorage w)
  ∧ exposed login_loaded !! "trigger_emergency_mode" = Some PageJs
  ∧ el_display <$> document login_after_emergency !! "lockscreen" = Some (js "flex")
  ∧ sessionStorage login_after_emergency !! "lockdown" = None
  ∧ el_display <$> document otp_after_emergency !! "lockscreen" = Some []
  ∧ (∀ G (w : world G),
       sessionStorage (run Global.trigger_emergency_mode w) !! "lockdown"
       = Some (js "true")).
Proof.
  split; [|split; [|split; [|split; [|split]]]].
  - intros G w. by destruct (keeps_run _ w (@keeps_page_trigger G)) as (E & _).
  - vm_compute. reflexivity.
  - vm_compute. reflexivity.
  - vm_compute. reflexivity.
  - vm_compute. reflexivity.
  - intros G w. apply global_handler_sets_flag.
Qed.

Lemma listeners_run_scripts {G} (pg : page G) (order : list script) (w : world G) :
  keeps_session (page_toplevel pg) →
  order = [GlobalJs; PageJs] ∨ order = [PageJs; GlobalJs] →
  let w1 := run_scripts pg order w in
  listeners w1 = listeners w ++ [GlobalJs]
  ∧ sessionStorage w1 = sessionStorage w
  ∧ dom (document w1) = dom (document w).
Proof.
  intros Hk [-> | ->]; unfold run_scripts; cbn [foldl toplevel_of].
  - destruct (keeps_run _ (run Global.toplevel w) Hk) as (S1 & L1 & D1 & _).
    rewrite S1, L1, D1, run_global_toplevel. done.
  - rewrite run_global_toplevel. cbn [listeners sessionStorage document].
    destruct (keeps_run _ w Hk) as (S1 & L1 & D1 & _). by rewrite S1, L1, D1.
Qed.

(** C2, as the code has it. On a page that includes [global.js] and whose
    own top-level code leaves the storage alone, loaded in a session whose
    lockdown flag is set: if the document has an overlay element, loading
    ends with the overlay made visible, with no call from the backend; this
    is the last effect of the load, after all the effects of the scripts'
    top-level code. If the document has no overlay element the listener
    changes nothing. *)
Theorem overlay_shown_when_document_is_ready {G} (pg : page G) (order : list script)
    (doc : gmap string element) (store : gmap string jsstring) (g : G) :
  keeps_session (page_toplevel pg) →
  order = [GlobalJs; PageJs] ∨ order = [PageJs; GlobalJs] →
  store !! "lockdown" = Some (js "true") →
  let scripts_done := run_scripts pg order (World doc store [] ∅ [] [] g) in
  let loaded := load pg order doc store g in
  (is_Some (doc !! "lockscreen") →
     trace loaded = trace scripts_done ++ overlay_shown
     ∧ el_display <$> document loaded !! "lockscreen" = Some (js "flex"))
  ∧ (doc !! "lockscreen" = None → loaded = scripts_done).
Proof.
  intros Hk Horder Hflag w1 w. subst w. unfold load. fold w1.
  destruct (listeners_run_scripts pg order (World doc store [] ∅ [] [] g) Hk Horder)
    as (HL & HS & HD).
  fold w1 in HL, HS, HD. cbn [listeners sessionStorage document app] in HL, HS, HD.
  unfold dispatch_DOMContentLoaded. rewrite HL. cbn [foldl listener_of].
  destruct (run_on_DOMContentLoaded w1) as (_ & _ & _ & _ & _ & _ & Hcases).
  cbv zeta in Hcases. rewrite HS, Hflag in Hcases.
  assert (Hdom : ∀ j, is_Some (document w1 !! j) ↔ is_Some (doc !! j)).
  { intros j. by rewrite <- !elem_of_dom, HD. }
  split.
  - intros Hlock. destruct Hcases as [(_ & _ & Ht & Hd) | ([Hno | Hno] & _)]; [done| done |].
    apply Hdom in Hlock. rewrite Hno in Hlock. by destruct Hlock.
  - intros Hnone. destruct Hcases as [(_ & Hsome & _) | (_ & E)]; [|done].
    apply Hdom in Hsome. rewrite Hnone in Hsome. by destruct Hsome.
Qed.

(** C2 as stated fails. The OTP page loaded under lockdown first runs its
    own top-level code, the first tick of the countdown, and only then
    shows the overlay; without an overlay element it shows nothing. *)
Lemma overlay_after_initialization_counterexample :
  trace (otp_loaded_locked otp_doc) = running_tick 60 ++ overlay_shown
  ∧ trace (otp_loaded_locked (delete "lockscreen" otp_doc)) = running_tick 60.
Proof. split; vm_compute; reflexivity. Qed.

(** ** The theorems at concrete inputs *)

Ltac found := vm_compute; eexists; reflexivity.
Ltac in_orders := unfold page_orders; rewrite !elem_of_cons; auto.

Lemma login_validates_then_calls_once_witness :
  added (type_into "user" (js "alice") (type_into "pass" (js " pw1 ") login_loaded))
        (run Login.login
             (type_into "user" (js "alice") (type_into "pass" (js " pw1 ") login_loaded)))
  = [SetInnerText "status" (js "Authenticating...");
     EelCall "login" [VStr (js "alice"); VStr (js "pw1")]].
Proof.
  refine (proj1 (proj2 (login_validates_then_calls_once login_loaded (js "alice")
                          (js " pw1 ") _ _ _) _)); [found | found | found |].
  split; vm_compute; discriminate.
Defined.

Lemma countdown_expires_exactly_once_witness :
  timeouts (otp_run [TimerFires; CodeSubmitted (js "123456");
                     Pushed "otp_failed" [VStr (js "Wrong code")]; TimerFires]
                    (otp_loaded "2")) = []
  ∧ List.filter is_expiry
      (timer_effects [TimerFires; CodeSubmitted (js "123456");
                      Pushed "otp_failed" [VStr (js "Wrong code")]; TimerFires]
                     (otp_loaded "2"))
    = [SetInnerText "status" expired_text].
Proof.
  assert (H : (1 <= 2 <= 2 ^ 53)%Z) by lia.
  destruct (countdown_expires_exactly_once 2 [GlobalJs; PageJs] otp_doc ∅ (otp_query "2")
              [TimerFires; CodeSubmitted (js "123456");
               Pushed "otp_failed" [VStr (js "Wrong code")]; TimerFires] H)
    as (_ & H2 & _);
    [vm_compute; reflexivity | in_orders | found | found | found
     | repeat constructor |].
  destruct H2 as (H2 & H3 & _); [vm_compute; lia|].
  exact (conj H2 H3).
Defined.


Lemma submitOtp_checks_trimmed_length_witness :
  added (type_into "otp" (js " 123456 ") (otp_loaded "60"))
        (run Otp.submitOtp (type_into "otp" (js " 123456 ") (otp_loaded "60")))
  = [SetInnerText "status" (js "Verifying...");
     EelCall "verify_otp" [VStr (js "alice"); VStr (js "123456")]].
Proof.
  refine (proj1 (proj2 (submitOtp_checks_trimmed_length (otp_loaded "60") (js " 123456 ")
                          _ _) _)); [found | found | vm_compute; reflexivity].
Defined.

Lemma submitOtp_after_expiry_still_calls_witness :
  shows_expired (Nat.iter 2 fire (otp_loaded "2"))
  ∧ calls (added (type_into "otp" (js "123456") (Nat.iter 2 fire (otp_loaded "2")))
                 (run Otp.submitOtp
                      (type_into "otp" (js "123456") (Nat.iter 2 fire (otp_loaded "2")))))
    = [EelCall "verify_otp" [VStr (js "alice"); VStr (js "123456")]].
Proof.
  assert (H : (1 <= 2)%Z) by lia.
  destruct (submitOtp_after_expiry_still_calls 2 [GlobalJs; PageJs] otp_doc ∅
              (otp_query "2") (js "123456") H)
    as (H1 & _ & H3);
    [vm_compute; reflexivity | in_orders | found | found | found | found
     | vm_compute; reflexivity |].
  exact (conj H1 H3).
Defined.

Lemma seed_defaults_to_60_witness :
  Otp.timeLeft (Otp.init_vars (otp_query "0")) = 60
  ∧ timeouts (otp_loaded "0") = [("tick", [])].
Proof.
  destruct (seed_defaults_to_60 [GlobalJs; PageJs] otp_doc ∅ (otp_query "0"))
    as (H1 & _ & H3 & _);
    [right; right; vm_compute; reflexivity | in_orders | found | found | found |].
  exact (conj H1 H3).
Defined.

Lemma menu_follows_lowercased_role_witness :
  el_innerHTML <$> document (run MainMenu.toplevel (menu_world "Staff")) !! "menu"
  = Some (MainMenu.header (globals (menu_world "Staff"))
          ++ MainMenu.buttons_html MainMenu.staff_buttons).
Proof.
  refine (proj1 (proj1 (menu_follows_lowercased_role (menu_world "Staff")
                          (menu_query "alice" "Staff") _ _ _) _));
    [found | reflexivity | repeat constructor |].
  exists (js "Staff"). split; [vm_compute; reflexivity|].
  rewrite <- toLowerCase_spells by apply staff_is_lower_case. vm_compute. reflexivity.
Defined.

Lemma balance_page_shows_amount_or_error_witness :
  el_innerText <$> document (run (Balance.toplevel parseFloat_sample (λ _, []))
                                 (balance_world "1250.5")) !! "balance-amount"
  = Some (js "RM 1250.50").
Proof.
  assert (H : is_Some (document (balance_world "1250.5") !! "balance-amount")) by found.
  destruct (balance_page_shows_amount_or_error parseFloat_sample (λ _, [])
              (balance_world "1250.5") H) as (_ & H2 & _).
  destruct (H2 (2501 # 2)) as [E _];
    [vm_compute; discriminate | vm_compute; reflexivity | vm_compute; reflexivity |].
  rewrite E. vm_compute. reflexivity.
Defined.

Lemma overlay_shown_when_document_is_ready_witness :
  el_display <$> document (otp_loaded_locked otp_doc) !! "lockscreen" = Some (js "flex").
Proof.
  refine (proj2 (proj1 (overlay_shown_when_document_is_ready Otp.the_page
                          [GlobalJs; PageJs] otp_doc {["lockdown" := js "true"]}
                          (Otp.init_vars (otp_query "60")) keeps_otp_toplevel _ _) _));
    [by left | vm_compute; reflexivity | found].
Defined.

(** * Further properties of the scripts *)

(** ** Lockdown across pages *)

Lemma run_global_trigger {G} (w : world G) :
  let w' := run Global.trigger_emergency_mode w in
  sessionStorage w' = <["lockdown" := js "true"]> (sessionStorage w)
  ∧ (is_Some (document w !! "lockscreen") →
       added w w' = emergency_prefix ++ [SetDisplay "lockscreen" (js "flex")]
       ∧ el_display <$> document w' !! "lockscreen" = Some (js "flex"))
  ∧ (document w !! "lockscreen" = None →
       added w w' = emergency_prefix ++ [Navigate (js "lock.html")]
       ∧ document w' = document w).
Proof.
  unfold run, Global.trigger_emergency_mode, navigate, emergency_prefix. do 2 eff_step.
  destruct (document w !! "lockscreen") as [e|] eqn:L.
  - eff_step. eff_prim. split; [done|]. split; [|by intros ?].
    intros _. split.
    + apply added_app. cbn [trace]. by rewrite <- !app_assoc.
    + cbn [document]. rewrite lookup_alter. case_decide; [|done]. by rewrite L.
  - eff_step. eff_prim. split; [done|]. split; [by intros [? ?]|].
    intros _. split; [|done].
    apply added_app. cbn [trace]. by rewrite <- !app_assoc.
Qed.

(** What loading does with the flag of the session, on a page that
    includes [global.js]. *)
Lemma load_under_flag {G} (pg : page G) (order : list script)
    (doc : gmap string element) (store : gmap string jsstring) (g : G) :
  keeps_session (page_toplevel pg) →
  order = [GlobalJs; PageJs] ∨ order = [PageJs; GlobalJs] →
  let scripts_done := run_scripts pg order (World doc store [] ∅ [] [] g) in
  let loaded := load pg order doc store g in
  sessionStorage loaded = store
  ∧ (store !! "lockdown" = Some (js "true") → is_Some (doc !! "lockscreen") →
       el_display <$> document loaded !! "lockscreen" = Some (js "flex"))
  ∧ (store !! "lockdown" ≠ Some (js "true") → loaded = scripts_done).
Proof.
  intros Hk Horder w1 w. subst w. unfold load. fold w1.
  destruct (listeners_run_scripts pg order (World doc store [] ∅ [] [] g) Hk Horder)
    as (HL & HS & HD).
  fold w1 in HL, HS, HD. cbn [listeners sessionStorage document app] in HL, HS, HD.
  unfold dispatch_DOMContentLoaded. rewrite HL. cbn [foldl listener_of].
  destruct (run_on_DOMContentLoaded w1) as (S1 & _ & _ & _ & _ & _ & Hcases).
  cbv zeta in Hcases, S1. rewrite HS in Hcases.
  split; [by rewrite S1|]. split.
  - intros Hflag Hlock.
    destruct Hcases as [(_ & _ & _ & Hd) | ([Hno | Hno] & _)]; [done| done |].
    apply elem_of_dom in Hlock. rewrite <- HD in Hlock. apply elem_of_dom in Hlock.
    rewrite Hno in Hlock. by destruct Hlock.
  - intros Hflag. by destruct Hcases as [(Hset & _) | (_ & E)].
Qed.

(** X1. Once the handler of [global.js] has run, on whatever page and
    whether or not that page had an overlay, every page loaded afterwards
    in the session shows its overlay if it includes [global.js] and has the
    overlay element; the flag is still in the storage after the load, so
    the same holds for the page after it. *)
Theorem lockdown_survives_navigation {G H} (w : world G) (pg : page H)
    (order : list script) (doc : gmap string element) (g : H) :
  keeps_session (page_toplevel pg) →
  order = [GlobalJs; PageJs] ∨ order = [PageJs; GlobalJs] →
  is_Some (doc !! "lockscreen") →
  let session := sessionStorage (run Global.trigger_emergency_mode w) in
  let loaded := load pg order doc session g in
  el_display <$> document loaded !! "lockscreen" = Some (js "flex")
  ∧ sessionStorage loaded !! "lockdown" = Some (js "true").
Proof.
  intros Hk Horder Hlock session loaded.
  assert (Hflag : session !! "lockdown" = Some (js "true")).
  { unfold session. destruct (run_global_trigger w) as (-> & _). apply lookup_insert_eq. }
  destruct (load_under_flag pg order doc session g Hk Horder) as (HS & Hshow & _).
  fold loaded in HS, Hshow. split; [by apply Hshow|]. by rewrite HS.
Qed.

Lemma sessionStorage_removeItem_eq {G} (k : string) (w : world G) :
  sessionStorage_removeItem k w =
  (Return (), World (document w) (delete k (sessionStorage w)) (timeouts w)
                    (exposed w) (listeners w) (trace w ++ [StorageRemove k])
                    (globals w)).
Proof. reflexivity. Qed.

Lemma run_clearLock {G} (w : world G) :
  let w' := run Global.clearLock w in
  sessionStorage w' = delete "lockdown" (sessionStorage w)
  ∧ (is_Some (document w !! "lockscreen") →
       el_display <$> document w' !! "lockscreen" = Some (js "none")).
Proof.
  unfold run, Global.clearLock.
  rewrite bind_eq, sessionStorage_removeItem_eq. cbv beta iota.
  destruct (document w !! "lockscreen") as [e|] eqn:L.
  - eff_step. eff_step. eff_prim. split; [done|]. intros _.
    cbn [document]. rewrite lookup_alter. case_decide; [|done]. by rewrite L.
  - eff_step. eff_step. eff_prim. split; [done|]. by intros [? ?].
Qed.

(** X2. [clearLock] undoes the emergency handler of [global.js]: the
    storage is what it was, less the flag; the overlay, where the page has
    one, is hidden again; and the page loaded next does nothing at
    [DOMContentLoaded]. When the session had no flag before the emergency,
    the storage is exactly what it was. *)
Theorem clearLock_ends_lockdown {G H} (w : world G) (pg : page H)
    (order : list script) (doc : gmap string element) (g : H) :
  keeps_session (page_toplevel pg) →
  order = [GlobalJs; PageJs] ∨ order = [PageJs; GlobalJs] →
  let cleared := run Global.clearLock (run Global.trigger_emergency_mode w) in
  sessionStorage cleared = delete "lockdown" (sessionStorage w)
  ∧ (sessionStorage w !! "lockdown" = None → sessionStorage cleared = sessionStorage w)
  ∧ (is_Some (document w !! "lockscreen") →
       el_display <$> document cleared !! "lockscreen" = Some (js "none"))
  ∧ load pg order doc (sessionStorage cleared) g
    = run_scripts pg order (World doc (sessionStorage cleared) [] ∅ [] [] g).
Proof.
  intros Hk Horder cleared.
  destruct (run_global_trigger w) as (S1 & Hov & Hno).
  destruct (run_clearLock (run Global.trigger_emergency_mode w)) as (S2 & Hhide).
  fold cleared in S2, Hhide. cbv zeta in S1.
  assert (E : sessionStorage cleared = delete "lockdown" (sessionStorage w)).
  { by rewrite S2, S1, delete_insert_eq. }
  split; [done|]. split; [|split].
  - intros Hnone. rewrite E. by apply delete_id.
  - intros Hlock. apply Hhide. destruct (Hov Hlock) as (_ & Hd).
    destruct (document (run Global.trigger_emergency_mode w) !! "lockscreen"); [eauto | done].
  - destruct (load_under_flag pg order doc (sessionStorage cleared) g Hk Horder)
      as (_ & _ & Hquiet).
    apply Hquiet. rewrite E, lookup_delete_eq. done.
Qed.

(** ** The two forms, in any document *)

Lemma get_value_null {G} (w : world G) : get_value None w = (Throw, w).
Proof. reflexivity. Qed.

Lemma set_innerText_null {G} (t : jsstring) (w : world G) :
  set_innerText None t w = (Throw, w).
Proof. reflexivity. Qed.

Lemma added_uncaught {G} (w : world G) : added w (emit Uncaught w).2 = [Uncaught].
Proof. by apply added_app. Qed.

Lemma login_effects {G} (w : world G) :
  added w (run Login.login w)
  = login_outcome (document w !! "user") (document w !! "pass") (document w !! "status").
Proof.
  unfold run, Login.login, eel_call, login_outcome.
  destruct (document w !! "user") as [eu|] eqn:Hu.
  2: { eff_step. rewrite bind_eq, get_value_null. cbv beta iota. apply added_uncaught. }
  do 2 eff_step.
  destruct (document w !! "pass") as [ep|] eqn:Hp.
  2: { eff_step. rewrite bind_eq, get_value_null. cbv beta iota. apply added_uncaught. }
  do 2 eff_step.
  destruct (bool_decide (trim (el_value eu) = []) || bool_decide (trim (el_value ep) = []));
    destruct (document w !! "status") as [es|] eqn:Hs.
  - eff_step. eff_prim. by apply added_app.
  - eff_step. rewrite set_innerText_null. cbv beta iota. apply added_uncaught.
  - do 2 eff_step. eff_prim. apply added_app. cbn [trace]. by rewrite <- app_assoc.
  - eff_step. rewrite bind_eq, set_innerText_null. cbv beta iota. apply added_uncaught.
Qed.

Lemma submitOtp_effects_anywhere (w : world Otp.vars) :
  added w (run Otp.submitOtp w)
  = submit_outcome (document w !! "otp") (document w !! "status")
                   (Otp.username (globals w)).
Proof.
  unfold run, Otp.submitOtp, eel_call, submit_outcome.
  destruct (document w !! "otp") as [eo|] eqn:Ho.
  2: { eff_step. rewrite bind_eq, get_value_null. cbv beta iota. apply added_uncaught. }
  do 2 eff_step.
  destruct (bool_decide (trim (el_value eo) = []) || negb (length (trim (el_value eo)) =? 6)%nat);
    destruct (document w !! "status") as [es|] eqn:Hs.
  - eff_step. eff_prim. by apply added_app.
  - eff_step. rewrite set_innerText_null. cbv beta iota. apply added_uncaught.
  - do 3 eff_step. eff_prim. apply added_app. cbn [trace]. by rewrite <- app_assoc.
  - eff_step. rewrite bind_eq, set_innerText_null. cbv beta iota. apply added_uncaught.
Qed.

(** White space, once trimmed, is gone. *)
Lemma trimStart_head (s : jsstring) :
  match trimStart s with c :: _ => is_white_space c = false | [] => True end.
Proof.
  induction s as [|c s IH]; [done|]. cbn [trimStart].
  destruct (is_white_space c) eqn:E; [done|]. done.
Qed.

Lemma trimStart_fixed (s : jsstring) :
  match s with c :: _ => is_white_space c = false | [] => True end → trimStart s = s.
Proof. destruct s as [|c s]; [done|]. cbn [trimStart]. by intros ->. Qed.

Lemma trimStart_suffix (s : jsstring) : ∃ ws, s = ws ++ trimStart s.
Proof.
  induction s as [|c s [ws IH]]; [by exists []|]. cbn [trimStart].
  destruct (is_white_space c); [|by exists []].
  exists (c :: ws). cbn. by rewrite <- IH.
Qed.

Lemma trimEnd_prefix (s : jsstring) : ∃ ws, s = trimEnd s ++ ws.
Proof.
  unfold trimEnd. destruct (trimStart_suffix (rev s)) as [ws E].
  exists (rev ws). rewrite <- rev_app_distr, <- E. by rewrite rev_involutive.
Qed.

Lemma trim_trim (s : jsstring) : trim (trim s) = trim s.
Proof.
  unfold trim at 1.
  assert (Hstart : trimStart (trim s) = trim s).
  { apply trimStart_fixed. unfold trim.
    pose proof (trimStart_head s) as Hh.
    destruct (trimEnd_prefix (trimStart s)) as [ws E].
    destruct (trimEnd (trimStart s)) as [|c r]; [done|].
    rewrite E in Hh. done. }
  rewrite Hstart. unfold trim, trimEnd. rewrite rev_involutive.
  f_equal. apply trimStart_fixed, trimStart_head.
Qed.

(** X3. In any document, with or without the elements it looks up,
    [login] calls the backend at most once and requests no navigation;
    what it sends is the backend's [login] with two texts that are not
    empty and carry no white space at either end, and it sends it only
    after the status has been set to the authenticating message. When
    one of the three elements is missing the handler ends in an uncaught
    exception and has done nothing else, so it has sent nothing. *)
Theorem login_never_sends_blank {G} (w : world G) :
  let new := added w (run Login.login w) in
  (length (calls new) ≤ 1)%nat
  ∧ navigations new = []
  ∧ (∀ fn args, EelCall fn args ∈ new →
       ∃ u p, fn = "login" ∧ args = [VStr u; VStr p]
              ∧ u ≠ [] ∧ p ≠ [] ∧ trim u = u ∧ trim p = p
              ∧ new = [SetInnerText "status" (js "Authenticating..."); EelCall fn args])
  ∧ (document w !! "user" = None ∨ document w !! "pass" = None
     ∨ document w !! "status" = None →
     new = [Uncaught]).
Proof.
  cbv zeta. rewrite login_effects. unfold login_outcome.
  refine ((λ H : (_ ∧ _ ∧ _) ∧ _,
             conj (proj1 (proj1 H))
                  (conj (proj1 (proj2 (proj1 H)))
                        (conj (proj2 (proj2 (proj1 H))) (proj2 H)))) _).
  split.
  2:{ intros [H | [H | H]]; rewrite H.
      - done.
      - by destruct (document w !! "user").
      - destruct (document w !! "user"), (document w !! "pass"); try done.
        by destruct (_ || _). }
  destruct (document w !! "user") as [eu|]; [destruct (document w !! "pass") as [ep|]|].
  2,3: by (repeat split; [cbn; lia | intros fn args H; apply list_elem_of_singleton in H]).
  destruct (bool_decide (trim (el_value eu) = [])) eqn:Bu;
    [|destruct (bool_decide (trim (el_value ep) = [])) eqn:Bp];
    cbn [orb]; destruct (document w !! "status");
    (split; [cbn; lia|]); (split; [done|]); intros fn args H;
    rewrite ?elem_of_cons, ?elem_of_nil in H;
    try (destruct H as [H | []]; discriminate H).
  destruct H as [H | [H | []]]; [discriminate H|]. injection H as -> ->.
  apply bool_decide_eq_false in Bu, Bp.
  exists (trim (el_value eu)), (trim (el_value ep)).
  repeat split; try done; apply trim_trim.
Qed.

(** X4. In any document, [submitOtp] calls the backend at most once and
    requests no navigation; what it sends is [verify_otp] with the page's
    user name and a code of exactly 6 characters that carries no white
    space at either end. *)
Theorem submitOtp_never_sends_wrong_length (w : world Otp.vars) :
  let new := added w (run Otp.submitOtp w) in
  (length (calls new) ≤ 1)%nat
  ∧ navigations new = []
  ∧ (∀ fn args, EelCall fn args ∈ new →
       ∃ code, fn = "verify_otp"
               ∧ args = [val_of_string (Otp.username (globals w)); VStr code]
               ∧ length code = 6%nat ∧ trim code = code
               ∧ new = [SetInnerText "status" (js "Verifying..."); EelCall fn args]).
Proof.
  cbv zeta. rewrite submitOtp_effects_anywhere. unfold submit_outcome.
  destruct (document w !! "otp") as [eo|].
  2: by (repeat split; [cbn; lia | intros fn args H; apply list_elem_of_singleton in H]).
  destruct (bool_decide (trim (el_value eo) = []) || negb (length (trim (el_value eo)) =? 6)%nat)
    eqn:B; destruct (document w !! "status");
    (split; [cbn; lia|]); (split; [done|]); intros fn args H;
    rewrite ?elem_of_cons, ?elem_of_nil in H;
    try (destruct H as [H | []]; discriminate H).
  destruct H as [H | [H | []]]; [discriminate H|]. injection H as -> ->.
  apply orb_false_iff in B as [_ B]. apply negb_false_iff, Nat.eqb_eq in B.
  exists (trim (el_value eo)). repeat split; try done. apply trim_trim.
Qed.

(** X5. A lockdown blocks neither form. After the emergency handler of
    [global.js] has run, and after the page scripts' own handler has run,
    [login] and [submitOtp] add to the trace exactly what they add without
    it: the overlay is shown, the requests still go out. *)
Theorem lockdown_blocks_no_request :
  (∀ G (w : world G),
     added (run Global.trigger_emergency_mode w)
           (run Login.login (run Global.trigger_emergency_mode w))
     = added w (run Login.login w)
     ∧ added (run page_trigger_emergency_mode w)
             (run Login.login (run page_trigger_emergency_mode w))
       = added w (run Login.login w))
  ∧ (∀ w : world Otp.vars,
       added (run Global.trigger_emergency_mode w)
             (run Otp.submitOtp (run Global.trigger_emergency_mode w))
       = added w (run Otp.submitOtp w)
       ∧ added (run page_trigger_emergency_mode w)
               (run Otp.submitOtp (run page_trigger_emergency_mode w))
         = added w (run Otp.submitOtp w)).
Proof.
  assert (Hglobal : ∀ G (w : world G) (id : string),
            id ≠ "lockscreen" →
            document (run Global.trigger_emergency_mode w) !! id = document w !! id).
  { intros G w id Hid. unfold run, Global.trigger_emergency_mode, navigate. do 2 eff_step.
    destruct (document w !! "lockscreen") as [e|] eqn:L; eff_step; eff_prim;
      cbn [document]; rewrite ?lookup_alter_ne by done; done. }
  assert (Hpage : ∀ G (w : world G) (id : string),
            id ≠ "lockscreen" →
            document (run page_trigger_emergency_mode w) !! id = document w !! id).
  { intros G w id Hid. unfold run, page_trigger_emergency_mode.
    destruct (document w !! "lockscreen") as [e|] eqn:L; eff_step; eff_prim;
      cbn [document]; rewrite ?lookup_alter_ne by done; done. }
  assert (Hvars : ∀ w : world Otp.vars,
            globals (run Global.trigger_emergency_mode w) = globals w
            ∧ globals (run page_trigger_emergency_mode w) = globals w).
  { intros w. split.
    - apply (timer_run _ w). unfold Global.trigger_emergency_mode. keeps_timer.
    - apply (timer_run _ w). unfold page_trigger_emergency_mode. keeps_timer. }
  split.
  - intros G w. rewrite !login_effects, !Hglobal, !Hpage by done. done.
  - intros w. destruct (Hvars w) as [E1 E2].
    rewrite !submitOtp_effects_anywhere, !Hglobal, !Hpage, E1, E2 by done. done.
Qed.

(** ** Loading, by the order of the scripts *)

Lemma load_shape {G} (pg : page G) (order : list script)
    (doc : gmap string element) (store : gmap string jsstring) (g : G) :
  keeps_session (page_toplevel pg) →
  order ∈ page_orders →
  let w := World doc store [] ∅ [] [] g in
  (order = [PageJs] ∧ load pg order doc store g = run (page_toplevel pg) w)
  ∨ (order = [GlobalJs; PageJs]
     ∧ load pg order doc store g
       = run Global.on_DOMContentLoaded (run (page_toplevel pg) (run Global.toplevel w)))
  ∨ (order = [PageJs; GlobalJs]
     ∧ load pg order doc store g
       = run Global.on_DOMContentLoaded (run Global.toplevel (run (page_toplevel pg) w))).
Proof.
  intros Hk Horder w. unfold page_orders in Horder.
  rewrite !elem_of_cons, elem_of_nil in Horder.
  destruct Horder as [-> | [-> | [-> | []]]]; unfold load, run_scripts; fold w;
    cbn [foldl toplevel_of]; unfold dispatch_DOMContentLoaded.
  - left. split; [done|].
    destruct (keeps_run _ w Hk) as (_ & L & _). rewrite L. done.
  - right. left. split; [done|].
    destruct (keeps_run _ (run Global.toplevel w) Hk) as (_ & L & _).
    rewrite L, run_global_toplevel. done.
  - right. right. split; [done|].
    rewrite run_global_toplevel. cbn [listeners].
    destruct (keeps_run _ w Hk) as (_ & L & _). rewrite L. done.
Qed.

Lemma document_on_DOMContentLoaded {G} (w : world G) (id : string) :
  id ≠ "lockscreen" →
  document (run Global.on_DOMContentLoaded w) !! id = document w !! id.
Proof.
  intros Hid. unfold run, Global.on_DOMContentLoaded. eff_step.
  destruct (decide (sessionStorage w !! "lockdown" = Some (js "true"))) as [F | F];
    [|by eff_prim].
  destruct (document w !! "lockscreen") as [el|] eqn:L; eff_step; eff_prim;
    cbn [document]; rewrite ?lookup_alter_ne by done; done.
Qed.

(** ** Seeds below zero *)

Lemma run_otp_toplevel_expired (w : world Otp.vars) :
  is_Some (document w !! "circle") →
  is_Some (document w !! "countdown") →
  is_Some (document w !! "status") →
  Otp.timeLeft (globals w) <= 0 →
  run Otp.toplevel w =
  World (alter (λ e, Element (el_value e) expired_text (el_innerHTML e) (el_display e))
               "status"
          (alter (λ e, Element (el_value e) (countdown_text (Otp.timeLeft (globals w)))
                               (el_innerHTML e) (el_display e))
                 "countdown" (document w)))
        (sessionStorage w) (timeouts w)
        (<["trigger_emergency_mode" := PageJs]>
           (<["redirect_main" := PageJs]> (<["otp_failed" := PageJs]> (exposed w))))
        (listeners w)
        (trace w ++ last_tick (Otp.timeLeft (globals w)))
        (globals w).
Proof.
  intros [ci Hci] [ec Hc] [es Hs] Hle. unfold run, Otp.toplevel.
  eff_step. eff_step. rewrite bind_eq.
  erewrite tick_at_zero by eassumption. cbv beta iota.
  do 2 eff_step. eff_prim. done.
Qed.

(** X6. A seed below zero, down to -2^53, is not replaced by the
    default. The page loaded with such a seed expires with its first
    tick, while loading: it shows the negative number as the remaining
    time and the expiry message, schedules no timeout at all, and no later
    firing changes anything. *)
Theorem negative_seed_expires_at_load (N : Z) (order : list script)
    (doc : gmap string element) (store : gmap string jsstring) (q : query) :
  - 2 ^ 53 <= N < 0 →
  parseInt (searchParams_get q (js "t")) = Some N →
  order ∈ page_orders →
  is_Some (doc !! "circle") → is_Some (doc !! "countdown") → is_Some (doc !! "status") →
  let w0 := load Otp.the_page order doc store (Otp.init_vars q) in
  Otp.timeLeft (Otp.init_vars q) = N
  ∧ timeouts w0 = []
  ∧ shows_expired w0
  ∧ el_innerText <$> document w0 !! "countdown"
    = Some (45%N :: digits (Z.to_N (- N)) ++ js "s remaining")
  ∧ List.filter schedules (trace w0) = []
  ∧ fire w0 = w0.
Proof.
  intros [_ HN] Hq Horder Hci Hc Hs w0.
  assert (Hg : Otp.timeLeft (Otp.init_vars q) = N).
  { unfold Otp.init_vars. cbn [Otp.timeLeft]. rewrite Hq. unfold or_num.
    destruct (Z.eqb_spec N 0); [lia | done]. }
  assert (Htext : countdown_text N = 45%N :: digits (Z.to_N (- N)) ++ js "s remaining").
  { unfold countdown_text, show_int. by destruct (Z.ltb_spec N 0); [|lia]. }
  assert (Hw : ∀ wa : world Otp.vars,
            document wa = doc → timeouts wa = [] → trace wa = [] →
            globals wa = Otp.init_vars q →
            let wb := run Otp.toplevel wa in
            timeouts wb = [] ∧ shows_expired wb
            ∧ el_innerText <$> document wb !! "countdown" = Some (countdown_text N)
            ∧ trace wb = last_tick N).
  { intros wa Ed Et Etr Eg. cbv zeta.
    rewrite run_otp_toplevel_expired by (rewrite ?Ed, ?Eg, ?Hg; first [done | lia]).
    unfold shows_expired.
    cbn [document sessionStorage timeouts exposed listeners trace globals].
    rewrite Ed, Et, Etr, Eg, Hg. destruct Hc as [ec Hc], Hs as [es Hs].
    split; [done|]. split; [|split; [|done]].
    - rewrite lookup_alter. case_decide; [|done]. rewrite lookup_alter_ne by done.
      by rewrite Hs.
    - rewrite lookup_alter_ne by done. rewrite lookup_alter. case_decide; [|done].
      by rewrite Hc. }
  assert (Hd : ∀ wb : world Otp.vars,
            timeouts wb = [] → shows_expired wb →
            el_innerText <$> document wb !! "countdown" = Some (countdown_text N) →
            trace wb = last_tick N →
            let wc := run Global.on_DOMContentLoaded wb in
            timeouts wc = [] ∧ shows_expired wc
            ∧ el_innerText <$> document wc !! "countdown" = Some (countdown_text N)
            ∧ List.filter schedules (trace wc) = []).
  { intros wb Ht He Hcd Etr. cbv zeta. unfold shows_expired in *.
    rewrite !document_on_DOMContentLoaded by done.
    destruct (run_on_DOMContentLoaded wb) as (_ & T & _ & _ & _ & _ & Hcases).
    cbv zeta in T, Hcases. rewrite T. repeat split; try done.
    destruct Hcases as [(_ & _ & E & _) | (_ & ->)]; rewrite ?E, Etr; done. }
  assert (Hfinal : timeouts w0 = [] ∧ shows_expired w0
            ∧ el_innerText <$> document w0 !! "countdown" = Some (countdown_text N)
            ∧ List.filter schedules (trace w0) = []).
  { destruct (load_shape Otp.the_page order doc store (Otp.init_vars q)
                keeps_otp_toplevel Horder) as [[_ E] | [[_ E] | [_ E]]];
      fold w0 in E; rewrite E.
    - destruct (Hw (World doc store [] ∅ [] [] (Otp.init_vars q))) as (A & B & C & D);
        try done.
      change (page_toplevel Otp.the_page) with Otp.toplevel. by rewrite D.
    - change (page_toplevel Otp.the_page) with Otp.toplevel. rewrite run_global_toplevel.
      match goal with |- context [run Otp.toplevel ?x] =>
        destruct (Hw x) as (A & B & C & D); try done end.
      by apply Hd.
    - change (page_toplevel Otp.the_page) with Otp.toplevel. rewrite run_global_toplevel.
      destruct (Hw (World doc store [] ∅ [] [] (Otp.init_vars q))) as (A & B & C & D);
        try done.
      by apply Hd. }
  destruct Hfinal as (A & B & C & D). rewrite <- Htext.
  repeat split; try done. by apply fire_idle.
Qed.

(** ** The timeouts of the countdown *)

Lemma schedules_ticks (m : Z) (k : nat) :
  List.filter schedules (ticks_from m k) = replicate k (SetTimeout "tick" 1000).
Proof.
  induction k as [|k IH]; [done|].
  cbn [ticks_from]. rewrite List.filter_app, IH. cbn.
  clear IH. induction k as [|k IH]; [done|]. cbn. by rewrite IH.
Qed.

(** X7. On the OTP page loaded with a seed [N] from 1 to 2^53, the
    range in which the script's counter is exact, whatever the order
    of firings, submissions and pushes: at most one timeout is ever
    pending, and the ticks have scheduled one timeout of 1000 ms for each
    tick run so far, [N] of them in all once the countdown has run out and
    never more. *)
Theorem countdown_schedules_one_timeout_per_second (N : Z) (order : list script)
    (doc : gmap string element) (store : gmap string jsstring) (q : query)
    (evs : list otp_event) :
  1 <= N <= 2 ^ 53 →
  parseInt (searchParams_get q (js "t")) = Some N →
  order ∈ page_orders →
  is_Some (doc !! "circle") → is_Some (doc !! "countdown") → is_Some (doc !! "status") →
  let w0 := load Otp.the_page order doc store (Otp.init_vars q) in
  let w := otp_run evs w0 in
  (length (timeouts w) ≤ 1)%nat
  ∧ List.filter schedules (trace w0 ++ timer_effects evs w0)
    = replicate (Nat.min (S (firings evs)) (Z.to_nat N)) (SetTimeout "tick" 1000).
Proof.
  intros [HN _] Hq Horder Hci Hc Hs w0 w.
  assert (Hg : Otp.timeLeft (Otp.init_vars q) = N).
  { unfold Otp.init_vars. cbn [Otp.timeLeft]. rewrite Hq. unfold or_num.
    destruct (Z.eqb_spec N 0); [lia | done]. }
  destruct (load_otp N order doc store _ Hg HN Horder Hci Hc Hs)
    as (T0 & _ & dcl & Htr0 & Hdcl).
  fold w0 in T0, Htr0. set (n := Z.to_nat N).
  assert (Hm : N - 1 = Z.of_nat (n - 1)) by lia.
  rewrite Hm in T0.
  destruct (otp_run_ticking evs (n - 1) w0 T0) as (Hbefore & Hafter). fold w in Hbefore, Hafter.
  assert (Hdcl_s : List.filter schedules dcl = []) by by destruct Hdcl as [-> | ->].
  rewrite Htr0, !List.filter_app, Hdcl_s.
  change (List.filter schedules (running_tick N)) with [SetTimeout "tick" 1000].
  destruct (decide (firings evs ≤ n - 1)%nat) as [Hk | Hk].
  - destruct Hbefore as ((_ & Ht & _) & E); [done|]. rewrite Ht, E, schedules_ticks.
    split; [cbn; lia|]. replace (S (firings evs) `min` n)%nat with (S (firings evs)) by lia.
    done.
  - destruct Hafter as (Ht & E); [lia|]. rewrite Ht, E, List.filter_app, schedules_ticks.
    split; [cbn; lia|]. replace (S (firings evs) `min` n)%nat with (S (n - 1)) by lia.
    cbn. by rewrite app_nil_r.
Qed.

(** ** An OTP page without its canvas or its countdown element *)

Lemma run_otp_toplevel_broken (w : world Otp.vars) :
  document w !! "circle" = None ∨ document w !! "countdown" = None →
  ∃ l, run Otp.toplevel w
       = World (document w) (sessionStorage w) (timeouts w) (exposed w) (listeners w)
               (trace w ++ l ++ [Uncaught]) (globals w)
       ∧ ∀ t, SetInnerText "countdown" t ∉ l.
Proof.
  intros Hbroken. unfold run, Otp.toplevel.
  destruct (document w !! "circle") as [ci|] eqn:Hci.
  - destruct Hbroken as [? | Hc]; [done|].
    eff_step. eff_step. rewrite bind_eq. unfold Otp.tick, Otp.draw.
    rewrite bind_eq. eff_step. eff_prim. do 2 eff_step.
    rewrite bind_eq, set_innerText_null. cbv beta iota.
    exists [DrawArc (inject_Z (Otp.timeLeft (globals w)) / 60)]. split.
    + cbn. by rewrite <- app_assoc.
    + intros t. rewrite list_elem_of_singleton. congruence.
  - eff_step. rewrite bind_eq. cbv beta iota. unfold throw. cbv beta iota.
    exists []. split; [done|]. intros t. apply not_elem_of_nil.
Qed.

(** X8. When the document of the OTP page lacks the canvas or the
    countdown element, the script stops at its top level with an uncaught
    exception: nothing is ever shown in the countdown, no timeout is
    scheduled, and the script's own functions are never exposed, so that
    the pushes of the backend for a failed and for a verified code both
    leave the page as it is. *)
Theorem otp_page_without_canvas_never_starts (order : list script)
    (doc : gmap string element) (store : gmap string jsstring) (g : Otp.vars) :
  order ∈ page_orders →
  doc !! "circle" = None ∨ doc !! "countdown" = None →
  let w0 := load Otp.the_page order doc store g in
  timeouts w0 = []
  ∧ Uncaught ∈ trace w0
  ∧ (∀ t, SetInnerText "countdown" t ∉ trace w0)
  ∧ (∀ args, push Otp.the_page "otp_failed" args w0 = w0)
  ∧ (∀ args, push Otp.the_page "redirect_main" args w0 = w0)
  ∧ fire w0 = w0.
Proof.
  intros Horder Hbroken w0.
  assert (Hw : ∀ wa : world Otp.vars,
            document wa = doc → timeouts wa = [] → trace wa = [] →
            exposed wa !! "otp_failed" = None → exposed wa !! "redirect_main" = None →
            let wb := run Otp.toplevel wa in
            timeouts wb = [] ∧ Uncaught ∈ trace wb
            ∧ (∀ t, SetInnerText "countdown" t ∉ trace wb)
            ∧ exposed wb !! "otp_failed" = None ∧ exposed wb !! "redirect_main" = None).
  { intros wa Ed Et Etr E1 E2. cbv zeta.
    destruct (run_otp_toplevel_broken wa) as (l & -> & Hl); [by rewrite Ed|].
    cbn [timeouts trace exposed]. rewrite Etr. cbn [app].
    repeat split; try done.
    - apply elem_of_app. right. by apply list_elem_of_singleton.
    - intros t. rewrite elem_of_app, list_elem_of_singleton. intros [H | H]; [|done].
      by apply Hl in H. }
  assert (Hg : ∀ wb : world Otp.vars,
            timeouts wb = [] ∧ Uncaught ∈ trace wb
            ∧ (∀ t, SetInnerText "countdown" t ∉ trace wb)
            ∧ exposed wb !! "otp_failed" = None ∧ exposed wb !! "redirect_main" = None →
            let wc := run Global.on_DOMContentLoaded (run Global.toplevel wb) in
            timeouts wc = [] ∧ Uncaught ∈ trace wc
            ∧ (∀ t, SetInnerText "countdown" t ∉ trace wc)
            ∧ exposed wc !! "otp_failed" = None ∧ exposed wc !! "redirect_main" = None).
  { intros wb (A & B & C & D & E). cbv zeta.
    destruct (run_on_DOMContentLoaded (run Global.toplevel wb))
      as (_ & T & X & _ & _ & _ & Hcases).
    cbv zeta in T, X, Hcases. rewrite T, X, run_global_toplevel in *.
    cbn [timeouts exposed trace] in *. rewrite !lookup_insert_ne by done.
    split; [done|]. split; [|split; [|done]].
    - destruct Hcases as [(_ & _ & -> & _) | (_ & ->)]; cbn [trace]; [|done].
      apply elem_of_app. by left.
    - intros t. destruct Hcases as [(_ & _ & -> & _) | (_ & ->)]; cbn [trace]; [|done].
      rewrite elem_of_app. intros [H | H]; [by apply C in H|].
      apply list_elem_of_singleton in H. discriminate H. }
  assert (Hfinal : timeouts w0 = [] ∧ Uncaught ∈ trace w0
            ∧ (∀ t, SetInnerText "countdown" t ∉ trace w0)
            ∧ exposed w0 !! "otp_failed" = None ∧ exposed w0 !! "redirect_main" = None).
  { destruct (load_shape Otp.the_page order doc store g keeps_otp_toplevel Horder)
      as [[_ E] | [[_ E] | [_ E]]]; fold w0 in E; rewrite E;
      change (page_toplevel Otp.the_page) with Otp.toplevel.
    - by apply Hw.
    - destruct (run_on_DOMContentLoaded
                  (run Otp.toplevel (run Global.toplevel (World doc store [] ∅ [] [] g))))
        as (_ & T & X & _ & _ & _ & Hcases).
      cbv zeta in T, X, Hcases. rewrite T, X.
      destruct (Hw (run Global.toplevel (World doc store [] ∅ [] [] g)))
        as (A & B & C & D & F); try done.
      split; [done|]. split; [|split; [|done]].
      + destruct Hcases as [(_ & _ & -> & _) | (_ & ->)]; [|done].
        apply elem_of_app. by left.
      + intros t. destruct Hcases as [(_ & _ & -> & _) | (_ & ->)]; [|done].
        rewrite elem_of_app. intros [H | H]; [by apply C in H|].
        apply list_elem_of_singleton in H. discriminate H.
    - apply Hg. by apply Hw. }
  destruct Hfinal as (A & B & C & D & F).
  split; [done|]. split; [done|]. split; [done|].
  split; [|split].
  - intros args. unfold push. by rewrite D.
  - intros args. unfold push. by rewrite F.
  - by apply fire_idle.
Qed.

(** ** From a navigation to the variables of the next page *)

Lemma strip_start_fixed (s : jsstring) :
  match s with c :: _ => is_c0_control_or_space c = false | [] => True end →
  strip_start s = s.
Proof. destruct s as [|c s]; [done|]. cbn [strip_start]. by intros ->. Qed.

Lemma strip_fixed (s : jsstring) :
  Forall (λ c, is_c0_control_or_space c = false) s → strip s = s.
Proof.
  intros H. unfold strip. rewrite (strip_start_fixed s) by (by destruct H).
  rewrite strip_start_fixed; [apply rev_involutive|].
  assert (Hr : Forall (λ c, is_c0_control_or_space c = false) (rev s)).
  { by apply Forall_rev. }
  by destruct Hr.
Qed.

Lemma remove_tab_or_newline_fixed (s : jsstring) :
  Forall (λ c, is_tab_or_newline c = false) s → remove_tab_or_newline s = s.
Proof.
  unfold remove_tab_or_newline. induction 1 as [|c s Hc _ IH]; [done|].
  cbn [List.filter]. rewrite Hc. cbn [negb]. by rewrite IH.
Qed.

Lemma before_fixed (d : N) (s : jsstring) : Forall (λ c, c ≠ d) s → before d s = s.
Proof.
  induction 1 as [|c s Hc _ IH]; [done|]. cbn [before].
  destruct (N.eqb_spec c d); [done|]. by rewrite IH.
Qed.

Lemma before_app (d : N) (a b : jsstring) :
  Forall (λ c, c ≠ d) a → before d (a ++ d :: b) = a.
Proof.
  induction 1 as [|c s Hc _ IH]; cbn [before app].
  - by rewrite N.eqb_refl.
  - destruct (N.eqb_spec c d); [done|]. by rewrite IH.
Qed.

Lemma after_app (d : N) (a b : jsstring) :
  Forall (λ c, c ≠ d) a → after d (a ++ d :: b) = Some b.
Proof.
  induction 1 as [|c s Hc _ IH]; cbn [after app].
  - by rewrite N.eqb_refl.
  - by destruct (N.eqb_spec c d).
Qed.

Lemma split_on_fixed (d : N) (a : jsstring) :
  Forall (λ c, c ≠ d) a → split_on d a = [a].
Proof.
  induction 1 as [|c s Hc _ IH]; [done|]. cbn [split_on].
  destruct (N.eqb_spec c d); [done|]. by rewrite IH.
Qed.

Lemma percent_encode_fixed (special : bool) (s : jsstring) :
  Forall (λ c, in_query_percent_encode_set special c = false) s →
  percent_encode special s = s.
Proof.
  unfold percent_encode. induction 1 as [|c s Hc _ IH]; [done|].
  cbn [fmap list_fmap concat]. rewrite Hc. cbn [app]. f_equal. apply IH.
Qed.

Lemma percent_decode_fixed (s : list N) :
  Forall (λ c, c ≠ 37%N) s → percent_decode s = s.
Proof.
  induction 1 as [|c s Hc _ IH]; [done|]. cbn [percent_decode].
  destruct (N.eqb_spec c 37); [done|]. by rewrite IH.
Qed.

Lemma utf8_decode_ascii (s : list N) :
  Forall (λ c, (c <= 0x7F)%N) s → utf8_decode None s = s.
Proof.
  induction 1 as [|c s Hc _ IH]; [done|]. cbn [utf8_decode]. unfold utf8_lead.
  destruct (N.leb_spec c 0x7F); [|lia]. cbn [fst snd app]. by rewrite IH.
Qed.

Lemma utf16_basic (s : list N) :
  Forall (λ c, (c <= 0x7F)%N) s → concat (utf16 <$> s) = s.
Proof.
  induction 1 as [|c s Hc _ IH]; [done|]. cbn [fmap list_fmap concat]. unfold utf16.
  destruct (N.ltb_spec c 0x10000); [|lia]. cbn [app]. f_equal. apply IH.
Qed.

(** What being plain means for each step of the parsers. *)
Lemma is_plain_spec (c : N) :
  is_plain c = true →
  is_c0_control_or_space c = false ∧ is_tab_or_newline c = false
  ∧ (∀ special, in_query_percent_encode_set special c = false)
  ∧ (c <= 0x7F)%N ∧ c ≠ 35%N ∧ c ≠ 37%N ∧ c ≠ 38%N ∧ c ≠ 43%N ∧ c ≠ 61%N.
Proof.
  unfold is_plain, is_c0_control_or_space, is_tab_or_newline, in_query_percent_encode_set.
  intros H.
  rewrite !andb_true_iff, negb_true_iff, !orb_false_iff, !N.leb_le, !N.eqb_neq in H.
  repeat split; try lia.
  - rewrite N.leb_gt. lia.
  - rewrite !orb_false_iff, !N.eqb_neq. lia.
  - intros special.
    rewrite !orb_false_iff, N.leb_gt, N.ltb_ge, !N.eqb_neq, andb_false_iff, N.eqb_neq. lia.
Qed.

Lemma urlencoded_decode_plain (s : jsstring) :
  Forall (λ c, is_plain c = true) s → urlencoded_decode s = s.
Proof.
  intros H. unfold urlencoded_decode.
  assert (E : plus_to_space <$> s = s).
  { induction H as [|c s Hc _ IH]; [done|]. cbn [fmap list_fmap]. unfold plus_to_space at 1.
    apply is_plain_spec in Hc. destruct (N.eqb_spec c 43); [lia|]. f_equal. apply IH. }
  rewrite E, percent_decode_fixed, utf8_decode_ascii, utf16_basic; [done|..];
    (eapply Forall_impl; [exact H|]); intros c Hc; apply is_plain_spec in Hc; lia.
Qed.

Lemma urlencoded_pair (k v : jsstring) :
  Forall (λ c, is_plain c = true) k → Forall (λ c, is_plain c = true) v →
  k ++ 61%N :: v ≠ []
  ∧ Forall (λ c, c ≠ 38%N) (k ++ 61%N :: v)
  ∧ (urlencoded_decode (before 61 (k ++ 61%N :: v)),
     urlencoded_decode (default [] (after 61 (k ++ 61%N :: v)))) = (k, v).
Proof.
  intros Hk Hv. split; [by destruct k|]. split.
  - apply Forall_app. split; [|constructor; [lia|]];
      (eapply Forall_impl; [eassumption|]); intros c Hc; apply is_plain_spec in Hc; lia.
  - assert (Hk' : Forall (λ c, c ≠ 61%N) k).
    { eapply Forall_impl; [exact Hk|]. intros c Hc. apply is_plain_spec in Hc. lia. }
    rewrite before_app, after_app by done. cbn [default].
    by rewrite !urlencoded_decode_plain.
Qed.

Lemma urlencoded_parse_query_string (q : query) :
  plain_query q → urlencoded_parse (query_string q) = q.
Proof.
  unfold plain_query. induction 1 as [|[k v] q [Hk Hv] Hq IH]; [done|].
  cbn [fst snd] in Hk, Hv.
  destruct (urlencoded_pair k v Hk Hv) as (Hne & Hamp & Hpair).
  cbn [query_string]. destruct q as [|p q].
  - unfold urlencoded_parse. rewrite split_on_fixed by done. cbn [List.filter].
    rewrite bool_decide_eq_false_2 by done. cbn [negb fmap list_fmap]. by rewrite Hpair.
  - change (k ++ 61%N :: v ++ 38%N :: query_string (p :: q))
      with (k ++ (61%N :: v) ++ 38%N :: query_string (p :: q)).
    rewrite app_assoc. change (k ++ [61%N] ++ v)%list with (k ++ 61%N :: v) in *.
    unfold urlencoded_parse in *. rewrite split_on_free by done. cbn [List.filter].
    rewrite bool_decide_eq_false_2 by done. cbn [negb fmap list_fmap].
    by rewrite Hpair, IH.
Qed.

Lemma query_string_units (q : query) :
  plain_query q →
  Forall (λ c, is_plain c = true ∨ c = 38%N ∨ c = 61%N) (query_string q).
Proof.
  unfold plain_query. induction 1 as [|[k v] q [Hk Hv] Hq IH]; [constructor|].
  cbn [fst snd] in Hk, Hv.
  assert (Hkv : Forall (λ c, is_plain c = true ∨ c = 38%N ∨ c = 61%N) (k ++ 61%N :: v)).
  { apply Forall_app. split; [|constructor; [auto|]];
      (eapply Forall_impl; [eassumption|]); auto. }
  cbn [query_string]. destruct q as [|p q]; [done|].
  change (k ++ 61%N :: v ++ 38%N :: query_string (p :: q))
    with (k ++ (61%N :: v) ++ 38%N :: query_string (p :: q)).
  rewrite app_assoc. apply Forall_app. split; [done|]. constructor; auto.
Qed.

(** A query that the scripts write from plain names and values is read
    back as it was written. *)
Lemma searchParams_query_string (special : bool) (page : jsstring) (q : query) :
  Forall (λ c, is_plain c = true ∧ c ≠ 63%N) page →
  plain_query q →
  searchParams special (page ++ 63%N :: query_string q) = Some q.
Proof.
  intros Hpage Hq.
  assert (Hall : Forall (λ c, (is_plain c = true ∨ c = 38%N ∨ c = 61%N))
                   (page ++ 63%N :: query_string q)).
  { apply Forall_app. split; [|constructor; [by left|by apply query_string_units]].
    eapply Forall_impl; [exact Hpage|]. intros c [Hc _]. by left. }
  assert (Hspec : ∀ c, is_plain c = true ∨ c = 38%N ∨ c = 61%N →
            is_c0_control_or_space c = false ∧ is_tab_or_newline c = false
            ∧ in_query_percent_encode_set special c = false
            ∧ (c <= 0x7F)%N ∧ c ≠ 35%N).
  { intros c [Hc | [-> | ->]]; [|by destruct special..].
    apply is_plain_spec in Hc. destruct Hc as (? & ? & Hs & ? & ? & _). by rewrite Hs. }
  unfold searchParams.
  assert (Hascii : forallb (λ c, c <=? 0x7F)%N (page ++ 63%N :: query_string q) = true).
  { induction Hall as [|c l Hc _ IH]; [done|]. cbn [forallb]. apply Hspec in Hc.
    rewrite IH, andb_true_r. apply N.leb_le. lia. }
  rewrite Hascii. f_equal. unfold url_query.
  rewrite strip_fixed, remove_tab_or_newline_fixed, before_fixed;
    try (eapply Forall_impl; [exact Hall|]; intros c Hc; apply Hspec in Hc; tauto).
  rewrite after_app.
  2:{ eapply Forall_impl; [exact Hpage|]. by intros c [_ Hc]. }
  cbn [fmap option_fmap option_map default]. rewrite percent_encode_fixed.
  - by apply urlencoded_parse_query_string.
  - eapply Forall_impl; [by apply query_string_units|]. intros c Hc. apply Hspec in Hc. tauto.
Qed.

(** ** [parseInt] reads back what a template literal writes *)

Lemma digits_are_digits (n : N) : Forall (λ c, (48 <= c <= 57)%N) (digits n).
Proof.
  induction n as [n IH] using (well_founded_induction N.lt_wf_0).
  destruct (N.lt_ge_cases n 10) as [H | H].
  - rewrite digits_small by done. constructor; [lia | constructor].
  - rewrite digits_step by done. apply Forall_app. split.
    + apply IH. apply N.div_lt; lia.
    + constructor; [|constructor].
      assert (n mod 10 < 10)%N as Hm by (apply N.mod_lt; lia).
      revert Hm. generalize (n mod 10)%N. lia.
Qed.

Lemma digit_value_digit (c : N) : (48 <= c <= 57)%N → digit_value 10 c = Some (c - 48)%N.
Proof.
  intros H. unfold digit_value.
  destruct (N.leb_spec 48 c); [|lia]. destruct (N.leb_spec c 57); [|lia]. cbn [andb].
  destruct (N.ltb_spec (c - 48) 10); [done | lia].
Qed.

Lemma parse_digits_app (acc : option N) (a b : jsstring) :
  Forall (λ c, (48 <= c <= 57)%N) a →
  parse_digits 10 acc (a ++ b) = parse_digits 10 (parse_digits 10 acc a) b.
Proof.
  intros H. revert acc. induction H as [|c a Hc _ IH]; intros acc; [done|].
  cbn [app parse_digits]. rewrite digit_value_digit by done. apply IH.
Qed.

Lemma parse_digits_digits (n : N) : parse_digits 10 None (digits n) = Some n.
Proof.
  induction n as [n IH] using (well_founded_induction N.lt_wf_0).
  destruct (N.lt_ge_cases n 10) as [H | H].
  - rewrite digits_small by done. cbn [parse_digits].
    rewrite digit_value_digit by lia. cbn [default]. f_equal. lia.
  - rewrite digits_step, parse_digits_app by (done || apply digits_are_digits).
    rewrite IH by (apply N.div_lt; lia). cbn [parse_digits].
    assert (n mod 10 < 10)%N as Hm by (apply N.mod_lt; lia).
    assert (n = 10 * (n / 10) + n mod 10)%N as Hn by (apply N.div_mod; lia).
    revert Hm Hn. generalize (n mod 10)%N (n / 10)%N. intros m d Hm Hn.
    rewrite digit_value_digit by lia. cbn [default]. unfold id. f_equal. lia.
Qed.

Lemma parseInt_digits (sign : Z) (n : N) :
  let '(radix, s) := split_radix (digits n) in parse_digits radix None s = Some n.
Proof.
  pose proof (digits_are_digits n) as H. pose proof (parse_digits_digits n) as E.
  unfold split_radix. destruct (digits n) as [|c0 [|c1 s]]; [done..|].
  apply Forall_cons in H as [_ H]. apply Forall_cons in H as [H1 _].
  destruct (N.eqb_spec c1 120); [lia|]. destruct (N.eqb_spec c1 88); [lia|].
  by rewrite andb_false_r.
Qed.

(** An integer written into a URL by a template literal is the integer
    that [parseInt] reads. *)
Lemma parseInt_show_int (z : Z) : parseInt (Some (show_int z)) = Some z.
Proof.
  unfold parseInt, show_string, show_int.
  destruct (Z.ltb_spec z 0) as [Hz | Hz].
  - cbn [trimStart]. change (is_white_space 45) with false. cbv iota.
    cbn [split_sign]. change (45 =? 45)%N with true. cbv iota.
    pose proof (parseInt_digits 1 (Z.to_N (- z))) as E.
    destruct (split_radix (digits (Z.to_N (- z)))) as [radix s]. rewrite E. f_equal. lia.
  - pose proof (digits_are_digits (Z.to_N z)) as H.
    pose proof (parseInt_digits 1 (Z.to_N z)) as E.
    destruct (digits (Z.to_N z)) as [|c s] eqn:Ed.
    { pose proof (length_digits_pos (Z.to_N z)) as L. rewrite Ed in L. cbn in L. lia. }
    apply Forall_cons in H as [Hc _].
    assert (Hw : is_white_space c = false).
    { unfold is_white_space.
      rewrite !orb_false_iff, andb_false_iff, !N.eqb_neq, N.leb_gt. repeat split; lia. }
    cbn [trimStart]. rewrite Hw. cbn [split_sign].
    destruct (N.eqb_spec c 45); [lia|]. destruct (N.eqb_spec c 43); [lia|].
    destruct (split_radix (c :: s)) as [radix s']. rewrite E. f_equal. lia.
Qed.

Lemma strip_start_stops (l m : jsstring) (c : N) :
  is_c0_control_or_space c = false → ∃ l', strip_start (l ++ c :: m) = l' ++ c :: m.
Proof.
  intros Hc. induction l as [|d l [l' IH]]; cbn [app strip_start].
  - rewrite Hc. by exists [].
  - destruct (is_c0_control_or_space d); [by exists l' | by exists (d :: l)].
Qed.

(** What follows a [#] is the fragment: it is not part of the query. *)
Lemma searchParams_fragment (special : bool) (page : jsstring) (q : query) (tail : jsstring) :
  Forall (λ c, is_plain c = true ∧ c ≠ 63%N) page → page ≠ [] →
  plain_query q →
  Forall (λ c, (c <= 0x7F)%N) tail →
  searchParams special (page ++ 63%N :: query_string q ++ 35%N :: tail) = Some q.
Proof.
  intros Hpage Hne Hq Htail.
  assert (Hspec : ∀ c, is_plain c = true ∨ c = 38%N ∨ c = 61%N →
            is_c0_control_or_space c = false ∧ is_tab_or_newline c = false
            ∧ in_query_percent_encode_set special c = false
            ∧ (c <= 0x7F)%N ∧ c ≠ 35%N).
  { intros c [Hc | [-> | ->]]; [|by destruct special..].
    apply is_plain_spec in Hc. destruct Hc as (? & ? & Hs & ? & ? & _). by rewrite Hs. }
  set (a := page ++ 63%N :: query_string q).
  assert (Ha : Forall (λ c, (is_plain c = true ∨ c = 38%N ∨ c = 61%N)) a).
  { apply Forall_app. split; [|constructor; [by left|by apply query_string_units]].
    eapply Forall_impl; [exact Hpage|]. intros c [Hc _]. by left. }
  change (page ++ 63%N :: query_string q ++ 35%N :: tail)
    with (page ++ (63%N :: query_string q) ++ 35%N :: tail).
  rewrite app_assoc. fold a.
  unfold searchParams.
  assert (Hascii : forallb (λ c, c <=? 0x7F)%N (a ++ 35%N :: tail) = true).
  { rewrite forallb_app. apply andb_true_iff. split.
    - clear -Ha Hspec. induction Ha as [|c l Hc _ IH]; [done|]. cbn [forallb].
      apply Hspec in Hc. rewrite IH, andb_true_r. apply N.leb_le. lia.
    - cbn [forallb]. change (35 <=? 127)%N with true. cbn [andb].
      clear -Htail. induction Htail as [|c l Hc _ IH]; [done|]. cbn [forallb].
      rewrite IH, andb_true_r. by apply N.leb_le. }
  rewrite Hascii. f_equal. unfold url_query.
  assert (Hstrip : ∃ tail', strip (a ++ 35%N :: tail) = a ++ 35%N :: tail').
  { unfold strip. rewrite (strip_start_fixed (a ++ 35%N :: tail)).
    2:{ subst a. destruct page as [|c page]; [done|]. cbn [app].
        apply Forall_cons in Hpage as [[Hc _] _]. apply is_plain_spec in Hc. tauto. }
    rewrite rev_app_distr. cbn [rev]. rewrite <- app_assoc. cbn [app].
    destruct (strip_start_stops (rev tail) (rev a) 35) as [l' ->]; [done|].
    exists (rev l'). rewrite rev_app_distr. cbn [rev].
    by rewrite rev_involutive, <- app_assoc. }
  destruct Hstrip as [tail' ->].
  unfold remove_tab_or_newline. rewrite List.filter_app.
  fold (remove_tab_or_newline a). rewrite remove_tab_or_newline_fixed.
  2:{ eapply Forall_impl; [exact Ha|]. intros c Hc. apply Hspec in Hc. tauto. }
  cbn [List.filter]. change (negb (is_tab_or_newline 35)) with true. cbv iota.
  rewrite before_app.
  2:{ eapply Forall_impl; [exact Ha|]. intros c Hc. apply Hspec in Hc. tauto. }
  subst a. rewrite after_app.
  2:{ eapply Forall_impl; [exact Hpage|]. by intros c [_ Hc]. }
  cbn [fmap option_fmap option_map default]. rewrite percent_encode_fixed.
  - by apply urlencoded_parse_query_string.
  - eapply Forall_impl; [by apply query_string_units|]. intros c Hc. apply Hspec in Hc. tauto.
Qed.

Lemma destination_navigate {G} (url : jsstring) (w : world G) :
  destination (navigate url) w = Some url.
Proof.
  unfold destination, run, navigate. rewrite emit_eq.
  by rewrite (added_app _ _ [Navigate url]).
Qed.

Lemma page_names :
  Forall (λ c, is_plain c = true ∧ c ≠ 63%N) (js "otp.html")
  ∧ Forall (λ c, is_plain c = true ∧ c ≠ 63%N) (js "mainmenu.html")
  ∧ Forall (λ c, is_plain c = true ∧ c ≠ 63%N) (js "balance.html").
Proof. repeat split; repeat constructor; done. Qed.

Lemma names_plain :
  Forall (λ c, is_plain c = true) (js "user")
  ∧ Forall (λ c, is_plain c = true) (js "status")
  ∧ Forall (λ c, is_plain c = true) (js "t")
  ∧ Forall (λ c, is_plain c = true) (js "bal")
  ∧ Forall (λ c, is_plain c = true) (js "customer")
  ∧ Forall (λ c, is_plain c = true) (js "null").
Proof. repeat split; repeat constructor. Qed.

Lemma digits_plain (n : N) : Forall (λ c, is_plain c = true) (digits n).
Proof.
  eapply Forall_impl; [apply digits_are_digits|]. intros c Hc. unfold is_plain.
  rewrite !andb_true_iff, negb_true_iff, !orb_false_iff, !N.leb_le, !N.eqb_neq.
  cbv beta in Hc. lia.
Qed.

Lemma show_int_plain (z : Z) : Forall (λ c, is_plain c = true) (show_int z).
Proof.
  unfold show_int. destruct (z <? 0); [constructor; [done|]|]; apply digits_plain.
Qed.

Ltac read_params :=
  cbn [searchParams_get];
  repeat first [rewrite decide_True by done | rewrite decide_False by done].

(** X9. What the login page hands over reaches the OTP page: when the
    backend calls [redirect_otp] with a user name and a status of plain
    code units and an integer timer up to 2^53 in magnitude, which the
    template literal writes with all its digits, the script of the OTP
    page reads that user name, that status (the default "customer" for an
    empty one) and that timer as its seed (60 for the timer 0), whether or
    not the scheme of the page is a special one. *)
Theorem redirect_otp_reaches_otp_page {G} (special : bool) (w : world G)
    (user status : jsstring) (timer : Z) :
  Forall (λ c, is_plain c = true) user →
  Forall (λ c, is_plain c = true) status →
  - 2 ^ 53 <= timer <= 2 ^ 53 →
  Otp.init_vars
    <$> next_query special (Login.redirect_otp (VStr user) (VStr status) (VNum timer)) w
  = Some (Otp.Vars (Some user) (or_string (Some status) (js "customer"))
                   (if timer =? 0 then 60 else timer)).
Proof.
  intros Hu Hs _. unfold next_query, Login.redirect_otp.
  rewrite destination_navigate. cbn [mbind option_bind show_val].
  change (js "otp.html?user=" ++ user ++ js "&status=" ++ status ++ js "&t=" ++ show_int timer)
    with (js "otp.html" ++ 63%N :: query_string [(js "user", user); (js "status", status);
                                                  (js "t", show_int timer)]).
  destruct page_names as (Hp & _). destruct names_plain as (N1 & N2 & N3 & _).
  rewrite searchParams_query_string; [|done|].
  2:{ repeat constructor; try done. cbn [snd]. apply show_int_plain. }
  cbn [fmap option_fmap option_map]. f_equal. unfold Otp.init_vars.
  read_params. by rewrite parseInt_show_int.
Qed.

Lemma toLowerCase_idem (s : jsstring) : toLowerCase (toLowerCase s) = toLowerCase s.
Proof.
  unfold toLowerCase. rewrite <- list_fmap_compose. apply list_fmap_ext.
  intros _ c _. cbn. unfold lower_unit.
  destruct (N.leb_spec 65 c) as [H1 | H1], (N.leb_spec c 90) as [H2 | H2]; cbn [andb].
  - destruct (N.leb_spec (c + 32) 90); [lia|]. by rewrite andb_false_r.
  - destruct (N.leb_spec 65 c); [|lia]. destruct (N.leb_spec c 90); [lia|]. done.
  - destruct (N.leb_spec 65 c); [lia|]. done.
  - destruct (N.leb_spec 65 c); [lia|]. done.
Qed.

Lemma or_string_Some (s b : jsstring) : s ≠ [] → or_string (Some s) b = s.
Proof. by destruct s. Qed.

Lemma or_string_nonempty (a : option jsstring) (b : jsstring) : b ≠ [] → or_string a b ≠ [].
Proof. by destruct a as [[|c s]|]. Qed.

(** X10. The trip from the main menu to the balance page and back keeps
    the session: the balance page reads the user name, the role and the
    backend's answer that the menu wrote (a text, or a number up to 2^53,
    which the template literal writes with all its digits), and its
    [goBack] leads to a menu of the same role for the same user. The one
    change is that a menu opened without a user name, whose user is
    [null], comes back with the user name "null". *)
Theorem balance_round_trip_keeps_menu (special : bool) (wm : world MainMenu.vars)
    (q : query) (answer : jsval) :
  globals wm = MainMenu.init_vars q →
  Forall (λ c, is_plain c = true) (show_string (MainMenu.user (globals wm))) →
  Forall (λ c, is_plain c = true) (MainMenu.status (globals wm)) →
  exact_val answer →
  Forall (λ c, is_plain c = true) (show_val answer) →
  let there :=
    Balance.Vars (Some (show_string (MainMenu.user (globals wm))))
                 (Some (MainMenu.status (globals wm))) (Some (show_val answer)) in
  let back :=
    MainMenu.Vars (Some (show_string (MainMenu.user (globals wm))))
                  (MainMenu.status (globals wm)) in
  Balance.init_vars <$> next_query special (MainMenu.checkBalance_resumed answer) wm
  = Some there
  ∧ (∀ wb : world Balance.vars,
       globals wb = there →
       MainMenu.init_vars <$> next_query special Balance.goBack wb = Some back)
  ∧ (is_Some (MainMenu.user (globals wm)) → back = globals wm)
  ∧ (MainMenu.user (globals wm) = None → MainMenu.user back = Some (js "null")).
Proof.
  intros Hg Hu Hs _ Ha there back.
  destruct page_names as (_ & Hmenu & Hbal).
  destruct names_plain as (N1 & N2 & _ & N4 & _).
  split; [|split; [|split]].
  - unfold next_query, MainMenu.checkBalance_resumed, destination, run.
    eff_step. unfold navigate. rewrite emit_eq.
    rewrite (added_app _ _ [Navigate (js "balance.html?user="
               ++ show_string (MainMenu.user (globals wm)) ++ js "&status="
               ++ MainMenu.status (globals wm) ++ js "&bal=" ++ show_val answer)])
      by done.
    cbn [omap list_omap target_of last mbind option_bind].
    change (js "balance.html?user=" ++ show_string (MainMenu.user (globals wm))
            ++ js "&status=" ++ MainMenu.status (globals wm) ++ js "&bal=" ++ show_val answer)
      with (js "balance.html" ++ 63%N
            :: query_string [(js "user", show_string (MainMenu.user (globals wm)));
                             (js "status", MainMenu.status (globals wm));
                             (js "bal", show_val answer)]).
    rewrite searchParams_query_string; [|done|by repeat constructor].
    reflexivity.
  - intros wb Hwb. unfold next_query, Balance.goBack, destination, run.
    eff_step. unfold navigate. rewrite emit_eq. rewrite Hwb. cbn [Balance.username Balance.status there show_string].
    rewrite (added_app _ _ [Navigate (js "mainmenu.html?user="
               ++ show_string (MainMenu.user (globals wm)) ++ js "&status="
               ++ MainMenu.status (globals wm))]) by done.
    cbn [omap list_omap target_of last mbind option_bind].
    change (js "mainmenu.html?user=" ++ show_string (MainMenu.user (globals wm))
            ++ js "&status=" ++ MainMenu.status (globals wm))
      with (js "mainmenu.html" ++ 63%N
            :: query_string [(js "user", show_string (MainMenu.user (globals wm)));
                             (js "status", MainMenu.status (globals wm))]).
    rewrite searchParams_query_string; [|done|by repeat constructor].
    cbn [fmap option_fmap option_map]. f_equal. unfold MainMenu.init_vars. read_params.
    unfold back. f_equal. rewrite Hg. cbn [MainMenu.status MainMenu.init_vars].
    rewrite or_string_Some, toLowerCase_idem; [done|].
    unfold toLowerCase. intros E. apply fmap_nil_inv in E. revert E.
    by apply or_string_nonempty.
  - intros [u Eu]. unfold back. rewrite Eu. cbn [show_string].
    destruct (globals wm) as [gu gs]. cbn in *. by rewrite Eu.
  - intros Eu. unfold back. cbn [MainMenu.user]. by rewrite Eu.
Qed.

Lemma plain_is_ascii (s : jsstring) :
  Forall (λ c, is_plain c = true) s → Forall (λ c, (c <= 0x7F)%N) s.
Proof.
  intros H. eapply Forall_impl; [exact H|]. intros c Hc. apply is_plain_spec in Hc. lia.
Qed.

(** X11. [redirect_main] writes its arguments into the URL unencoded.
    Plain arguments reach the main menu as they are, the status in lower
    case. A user name that carries a [&status=] of its own decides the
    role of the menu: the status parameter it brings comes first in the
    query and the one the backend passed is never read. *)
Theorem redirect_main_passes_arguments_unencoded (special : bool) (w : world Otp.vars)
    (user role status : jsstring) :
  Forall (λ c, is_plain c = true) user →
  Forall (λ c, is_plain c = true) role →
  Forall (λ c, is_plain c = true) status →
  MainMenu.init_vars
    <$> next_query special (Otp.redirect_main (VStr user) (VStr status)) w
  = Some (MainMenu.Vars (Some user) (toLowerCase (or_string (Some status) (js "customer"))))
  ∧ MainMenu.init_vars
      <$> next_query special
            (Otp.redirect_main (VStr (user ++ js "&status=" ++ role)) (VStr status)) w
    = Some (MainMenu.Vars (Some user) (toLowerCase (or_string (Some role) (js "customer")))).
Proof.
  intros Hu Hr Hs.
  destruct page_names as (_ & Hmenu & _). destruct names_plain as (N1 & N2 & _).
  unfold next_query, Otp.redirect_main. rewrite !destination_navigate.
  cbn [mbind option_bind show_val]. split.
  - change (js "mainmenu.html?user=" ++ user ++ js "&status=" ++ status)
      with (js "mainmenu.html" ++ 63%N
            :: query_string [(js "user", user); (js "status", status)]).
    rewrite searchParams_query_string; [|done|by repeat constructor].
    reflexivity.
  - rewrite <- !app_assoc.
    change (js "mainmenu.html?user=" ++ user ++ js "&status=" ++ role
            ++ js "&status=" ++ status)
      with (js "mainmenu.html" ++ 63%N
            :: query_string [(js "user", user); (js "status", role);
                             (js "status", status)]).
    rewrite searchParams_query_string; [|done|by repeat constructor].
    reflexivity.
Qed.

(** X12. A [#] in the user name ends the query: what [redirect_otp]
    writes after it, the rest of the name, the status and the timer, is
    the fragment of the URL, and the OTP page starts for the name cut at
    the [#], with the default status and the default seed of 60. *)
Theorem hash_in_user_name_cuts_the_query {G} (special : bool) (w : world G)
    (user rest : jsstring) (status timer : jsval) :
  Forall (λ c, is_plain c = true) user →
  Forall (λ c, (c <= 0x7F)%N) rest →
  Forall (λ c, (c <= 0x7F)%N) (show_val status) →
  Forall (λ c, (c <= 0x7F)%N) (show_val timer) →
  Otp.init_vars
    <$> next_query special
          (Login.redirect_otp (VStr (user ++ 35%N :: rest)) status timer) w
  = Some (Otp.Vars (Some user) (js "customer") 60).
Proof.
  intros Hu Hr Hs Ht.
  destruct page_names as (Hotp & _). destruct names_plain as (N1 & _).
  unfold next_query, Login.redirect_otp. rewrite destination_navigate.
  cbn [mbind option_bind show_val]. rewrite <- app_assoc.
  change (js "otp.html?user=" ++ user ++ (35%N :: rest) ++ js "&status="
          ++ show_val status ++ js "&t=" ++ show_val timer)
    with (js "otp.html" ++ 63%N
          :: query_string [(js "user", user)]
             ++ 35%N :: rest ++ js "&status=" ++ show_val status
                        ++ js "&t=" ++ show_val timer).
  rewrite searchParams_fragment; [reflexivity|done|done|by repeat constructor|].
  repeat (apply Forall_app; split); try done;
    repeat (constructor; [by vm_compute|]); constructor.
Qed.

(** X13. The amount that the backend pushes with [show_balance] is never
    shown. The function leaves for a balance page whose URL has no [bal]
    parameter, so that page displays "RM NaN"; the amount itself is only
    held by a timeout of the page being left, whose document has no
    element for it: if that timeout still fires, it ends in an uncaught
    exception and changes nothing. *)
Theorem show_balance_amount_is_never_shown (special : bool)
    (parseFloat : option jsstring → jsnum) (number_toString : Q → jsstring)
    (wm : world MainMenu.vars) (user : jsstring) (amount : jsval) :
  Forall (λ c, is_plain c = true) user →
  parseFloat None = NaN →
  timeouts wm = [] →
  document wm !! "balance-amount" = None →
  let left := run (MainMenu.show_balance (VStr user) amount) wm in
  let there := Balance.Vars (Some user) (Some (js "customer")) None in
  Balance.init_vars <$> next_query special (MainMenu.show_balance (VStr user) amount) wm
  = Some there
  ∧ (∀ wb : world Balance.vars,
       globals wb = there → is_Some (document wb !! "balance-amount") →
       el_innerText
         <$> document (run (Balance.toplevel parseFloat number_toString) wb)
             !! "balance-amount"
       = Some (js "RM NaN"))
  ∧ timeouts left = [("show_balance.timeout", [amount])]
  ∧ document (fire_timeout MainMenu.the_page left) = document wm
  ∧ added left (fire_timeout MainMenu.the_page left) = [Uncaught].
Proof.
  intros Hu Hnan Ht Hdoc left there.
  destruct page_names as (_ & _ & Hbal). destruct names_plain as (N1 & N2 & _ & _ & N5 & _).
  assert (Eleft : left
            = World (document wm) (sessionStorage wm) [("show_balance.timeout", [amount])]
                    (exposed wm) (listeners wm)
                    (trace wm ++ [Navigate (js "balance.html?user=" ++ user
                                            ++ js "&status=customer");
                                  SetTimeout "show_balance.timeout" 300])
                    (globals wm)).
  { unfold left, run, MainMenu.show_balance, navigate. eff_step. eff_prim.
    rewrite Ht. cbn [app show_val]. by rewrite <- app_assoc. }
  split; [|split; [|split; [|split]]].
  - unfold next_query, destination. fold left. rewrite Eleft.
    rewrite (added_app _ _ [Navigate (js "balance.html?user=" ++ user
                                      ++ js "&status=customer");
                            SetTimeout "show_balance.timeout" 300]) by done.
    cbn [omap list_omap target_of last mbind option_bind].
    change (js "balance.html?user=" ++ user ++ js "&status=customer")
      with (js "balance.html" ++ 63%N
            :: query_string [(js "user", user); (js "status", js "customer")]).
    rewrite searchParams_query_string; [|done|by repeat constructor].
    reflexivity.
  - intros wb Hwb Hel.
    destruct (run_balance_toplevel parseFloat number_toString wb Hel) as [_ ->].
    rewrite Hwb. cbn [Balance.bal there]. unfold Balance.balance_text.
    rewrite decide_False by done. by rewrite Hnan.
  - by rewrite Eleft.
  - rewrite Eleft. unfold fire_timeout. cbn [timeouts].
    unfold run. eff_step. cbn [page_callback MainMenu.the_page].
    unfold MainMenu.callback. rewrite decide_True by done.
    unfold MainMenu.show_balance_timeout. eff_step.
    by rewrite set_innerText_null.
  - rewrite Eleft. unfold fire_timeout. cbn [timeouts].
    unfold run. eff_step. cbn [page_callback MainMenu.the_page].
    unfold MainMenu.callback. rewrite decide_True by done.
    unfold MainMenu.show_balance_timeout. eff_step.
    rewrite set_innerText_null. by apply added_app.
Qed.

(** ** Status messages pushed by the backend *)

Lemma run_show_status {G} (msg : jsval) (w : world G) :
  is_Some (document w !! "status") →
  let w' := run (Login.show_status msg) w in
  trace w' = trace w ++ [SetInnerText "status" (text_of_val msg)]
  ∧ el_innerText <$> document w' !! "status" = Some (text_of_val msg)
  ∧ dom (document w') = dom (document w)
  ∧ timeouts w' = timeouts w ∧ sessionStorage w' = sessionStorage w
  ∧ exposed w' = exposed w ∧ globals w' = globals w.
Proof.
  intros [e He] w'. subst w'. unfold run, Login.show_status. eff_step. eff_prim.
  cbn [trace document timeouts sessionStorage exposed globals].
  rewrite lookup_alter_eq, He. repeat split; try done.
  apply dom_alter_L.
Qed.

(** X14. The status line of the login page shows the last message the
    backend pushed. A sequence of [show_status] pushes, of texts or of
    numbers up to 2^53, writes the status element once per push, a
    missing message as "undefined" and [null] as the empty text, and does
    nothing else: no call, no navigation, no timeout, no change of the
    session storage. *)
Theorem status_line_shows_last_push {G} (w : world G) (pushes : list (list jsval)) :
  is_Some (document w !! "status") →
  exposed w !! "show_status" = Some PageJs →
  Forall (λ args, exact_val (arg 0 args)) pushes →
  let w' := foldl (λ w args, push (Login.the_page (G := G)) "show_status" args w) w pushes in
  added w w' = (λ args, SetInnerText "status" (text_of_val (arg 0 args))) <$> pushes
  ∧ (∀ args, last pushes = Some args →
       el_innerText <$> document w' !! "status" = Some (text_of_val (arg 0 args)))
  ∧ (∀ args, last pushes = Some args → args = [] →
       el_innerText <$> document w' !! "status" = Some (js "undefined"))
  ∧ timeouts w' = timeouts w
  ∧ sessionStorage w' = sessionStorage w.
Proof.
  intros Hst Hex _ w'.
  assert (H : trace w' = trace w
                ++ ((λ args, SetInnerText "status" (text_of_val (arg 0 args))) <$> pushes)
              ∧ (∀ args, last pushes = Some args →
                   el_innerText <$> document w' !! "status"
                   = Some (text_of_val (arg 0 args)))
              ∧ timeouts w' = timeouts w ∧ sessionStorage w' = sessionStorage w).
  { subst w'. revert w Hst Hex.
    induction pushes as [|args pushes IH]; intros w Hst Hex; cbn [foldl].
    - cbn [fmap list_fmap]. rewrite app_nil_r. repeat split; try done.
    - destruct (run_show_status (arg 0 args) w Hst) as (T & D & Hdom & TO & SS & EX & _).
      cbv zeta in T, D, Hdom, TO, SS, EX.
      assert (E : push Login.the_page "show_status" args w
                  = run (Login.show_status (arg 0 args)) w).
      { unfold push. rewrite Hex. cbn [function_of page_function Login.the_page].
        unfold Login.function. by rewrite decide_True. }
      rewrite E.
      destruct (IH (run (Login.show_status (arg 0 args)) w)) as (T' & D' & TO' & SS').
      { rewrite <- elem_of_dom, Hdom, elem_of_dom. done. }
      { by rewrite EX. }
      rewrite T', T, TO', TO, SS', SS. cbn [fmap list_fmap].
      rewrite <- app_assoc. repeat split; try done.
      intros args' Hlast. destruct pushes as [|p pushes].
      + cbn in Hlast. injection Hlast as <-. cbn [foldl]. done.
      + apply D'. by rewrite last_cons_cons in Hlast. }
  destruct H as (T & D & TO & SS). repeat split; try done.
  - by apply added_app.
  - intros args Hlast ->. by rewrite (D [] Hlast).
Qed.

(** ** The further theorems at concrete inputs *)

Lemma lockdown_survives_navigation_witness :
  el_display
    <$> document (load Otp.the_page [GlobalJs; PageJs] otp_doc
                       (sessionStorage (run Global.trigger_emergency_mode login_loaded))
                       (Otp.init_vars (otp_query "60")))
        !! "lockscreen"
  = Some (js "flex").
Proof.
  refine (proj1 (lockdown_survives_navigation login_loaded Otp.the_page [GlobalJs; PageJs]
                   otp_doc (Otp.init_vars (otp_query "60")) keeps_otp_toplevel _ _));
    [by left | found].
Defined.

Lemma clearLock_ends_lockdown_witness :
  sessionStorage (run Global.clearLock (run Global.trigger_emergency_mode login_loaded))
  = delete "lockdown" (sessionStorage login_loaded).
Proof.
  refine (proj1 (clearLock_ends_lockdown login_loaded Otp.the_page [GlobalJs; PageJs]
                   otp_doc (Otp.init_vars (otp_query "60")) keeps_otp_toplevel _)).
  by left.
Defined.

Lemma negative_seed_expires_at_load_witness :
  timeouts (otp_loaded "-5") = [] ∧ shows_expired (otp_loaded "-5").
Proof.
  assert (H : (- 2 ^ 53 <= -5 < 0)%Z) by lia.
  destruct (negative_seed_expires_at_load (-5) [GlobalJs; PageJs] otp_doc ∅
              (otp_query "-5") H) as (_ & H2 & H3 & _);
    [vm_compute; reflexivity | in_orders | found | found | found |].
  exact (conj H2 H3).
Defined.

Lemma countdown_schedules_one_timeout_per_second_witness :
  List.filter schedules
    (trace (otp_loaded "2") ++ timer_effects [TimerFires; TimerFires; TimerFires]
                                             (otp_loaded "2"))
  = [SetTimeout "tick" 1000; SetTimeout "tick" 1000].
Proof.
  assert (H : (1 <= 2 <= 2 ^ 53)%Z) by lia.
  destruct (countdown_schedules_one_timeout_per_second 2 [GlobalJs; PageJs] otp_doc ∅
              (otp_query "2") [TimerFires; TimerFires; TimerFires] H) as (_ & H2);
    [vm_compute; reflexivity | in_orders | found | found | found |].
  exact H2.
Defined.

Lemma otp_page_without_canvas_never_starts_witness :
  timeouts (load Otp.the_page [GlobalJs; PageJs] (delete "circle" otp_doc) ∅
                 (Otp.init_vars (otp_query "60"))) = []
  ∧ push Otp.the_page "redirect_main" [VStr (js "alice"); VStr (js "customer")]
         (load Otp.the_page [GlobalJs; PageJs] (delete "circle" otp_doc) ∅
               (Otp.init_vars (otp_query "60")))
    = load Otp.the_page [GlobalJs; PageJs] (delete "circle" otp_doc) ∅
           (Otp.init_vars (otp_query "60")).
Proof.
  destruct (otp_page_without_canvas_never_starts [GlobalJs; PageJs]
              (delete "circle" otp_doc) ∅ (Otp.init_vars (otp_query "60")))
    as (H1 & _ & _ & _ & H5 & _); [in_orders | left; vm_compute; reflexivity |].
  exact (conj H1 (H5 [VStr (js "alice"); VStr (js "customer")])).
Defined.

Lemma redirect_otp_reaches_otp_page_witness :
  Otp.init_vars
    <$> next_query true
          (Login.redirect_otp (VStr (js "alice")) (VStr (js "staff")) (VNum 30))
          login_loaded
  = Some (Otp.Vars (Some (js "alice")) (js "staff") 30).
Proof.
  refine (redirect_otp_reaches_otp_page true login_loaded (js "alice") (js "staff") 30
            _ _ _);
    [repeat constructor | repeat constructor | lia].
Defined.

Lemma balance_round_trip_keeps_menu_witness :
  Balance.init_vars
    <$> next_query true (MainMenu.checkBalance_resumed (VStr (js "1250.5")))
          (menu_world "customer")
  = Some (Balance.Vars (Some (js "alice")) (Some (js "customer")) (Some (js "1250.5"))).
Proof.
  refine (proj1 (balance_round_trip_keeps_menu true (menu_world "customer")
                   (menu_query "alice" "customer") (VStr (js "1250.5")) _ _ _ _ _));
    [reflexivity | repeat constructor..].
Defined.

Lemma redirect_main_passes_arguments_unencoded_witness :
  MainMenu.init_vars
    <$> next_query true
          (Otp.redirect_main (VStr (js "alice&status=staff")) (VStr (js "customer")))
          (otp_loaded "60")
  = Some (MainMenu.Vars (Some (js "alice")) (js "staff")).
Proof.
  refine (proj2 (redirect_main_passes_arguments_unencoded true (otp_loaded "60")
                   (js "alice") (js "staff") (js "customer") _ _ _));
    repeat constructor.
Defined.

Lemma hash_in_user_name_cuts_the_query_witness :
  Otp.init_vars
    <$> next_query true
          (Login.redirect_otp (VStr (js "al#ice")) (VStr (js "staff")) (VNum 30))
          login_loaded
  = Some (Otp.Vars (Some (js "al")) (js "customer") 60).
Proof.
  refine (hash_in_user_name_cuts_the_query true login_loaded (js "al") (js "ice")
            (VStr (js "staff")) (VNum 30) _ _ _ _);
    repeat (constructor; [by vm_compute|]); constructor.
Defined.

Lemma show_balance_amount_is_never_shown_witness :
  Balance.init_vars
    <$> next_query true (MainMenu.show_balance (VStr (js "alice")) (VNum 1250))
          (menu_world "customer")
  = Some (Balance.Vars (Some (js "alice")) (Some (js "customer")) None)
  ∧ added (run (MainMenu.show_balance (VStr (js "alice")) (VNum 1250))
               (menu_world "customer"))
          (fire_timeout MainMenu.the_page
             (run (MainMenu.show_balance (VStr (js "alice")) (VNum 1250))
                  (menu_world "customer")))
    = [Uncaught].
Proof.
  destruct (show_balance_amount_is_never_shown true parseFloat_sample (λ _, [])
              (menu_world "customer") (js "alice") (VNum 1250))
    as (H1 & _ & _ & _ & H5);
    [repeat constructor | reflexivity | reflexivity | vm_compute; reflexivity |].
  exact (conj H1 H5).
Defined.

Lemma status_line_shows_last_push_witness :
  added login_loaded
        (foldl (λ w args, push Login.the_page "show_status" args w) login_loaded
               [[VStr (js "Invalid credentials")]; []])
  = [SetInnerText "status" (js "Invalid credentials");
     SetInnerText "status" (js "undefined")].
Proof.
  refine (proj1 (status_line_shows_last_push login_loaded
                   [[VStr (js "Invalid credentials")]; []] _ _ _));
    [found | vm_compute; reflexivity | repeat constructor].
Defined.
